(** * Santa osquery extension: rule identity map, rule mutation and log ingestion

    A shallow embedding of [santa.cpp], [santarulestable.cpp] and [utils.cpp].

    - [std::unordered_map] tables are [gmap]s; [insert] keeps an existing
      entry, as the C++ member does.  The iteration order of an
      [unordered_map] is unspecified, so it is a parameter of the model.
    - [RowID] is [std::uint32_t]: an [N] below [2^32], the increment of the
      generator wraps.  [size_t] differences wrap modulo [2^64].
    - Texts are C strings: a [string] without the NUL character.
    - The file system, the SQLite library and the process primitive are
      oracles: records that hold what each call returns.  A stream is the
      list of lines [std::getline] reads from it.
    - A null pointer dereference or a failed rapidjson assertion is [None]
      in the [option] monad.  Exceptions of the C++ runtime (out of memory)
      are not part of the model.
    - Of the [VLOG] diagnostics only the two of the failure branch of
      [delete_] are recorded, where they are the only trace of a decision
      the code takes. *)

From Stdlib Require Import String Ascii ZArith NArith List Lia DecimalString.
From stdpp Require Import base option list strings gmap fin_maps.

Local Open Scope string_scope.

(** ** C library and [std::string] helpers *)

Module CStr.

Definition chars (s : string) : list ascii := list_ascii_of_string s.

Definition code (c : ascii) : Z := Z.of_nat (nat_of_ascii c).

(** [isspace] in the C locale. *)
Definition isspace (c : ascii) : bool :=
  (code c =? 32)%Z || ((9 <=? code c)%Z && (code c <=? 13)%Z).

Definition digit_val (c : ascii) : option Z :=
  if ((48 <=? code c)%Z && (code c <=? 57)%Z)%bool then Some (code c - 48)%Z else None.

Fixpoint skip_spaces (s : string) : string :=
  match s with
  | String c r => if isspace c then skip_spaces r else s
  | EmptyString => s
  end.

(** Reads the longest run of decimal digits: value, number of digits, rest. *)
Fixpoint read_digits (acc : Z) (n : nat) (s : string) : Z * nat * string :=
  match s with
  | String c r =>
      match digit_val c with
      | Some d => read_digits (10 * acc + d) (S n) r
      | None => (acc, n, s)
      end
  | EmptyString => (acc, n, s)
  end.

Definition read_sign (s : string) : bool * string :=
  match s with
  | String "-" r => (true, r)
  | String "+" r => (false, r)
  | _ => (false, s)
  end.

Definition LONG_MAX : Z := 2 ^ 63 - 1.
Definition LONG_MIN : Z := - 2 ^ 63.
Definition ULLONG_MAX : Z := 2 ^ 64 - 1.

(** [strtol (s, NULL, 10)]: the value saturates at the bounds of [long]. *)
Definition strtol (s : string) : Z :=
  let '(neg, s1) := read_sign (skip_spaces s) in
  let '(v, _, _) := read_digits 0 0 s1 in
  let v := if neg then (- v)%Z else v in
  Z.max LONG_MIN (Z.min LONG_MAX v).

(** Conversion of a [long] to [int]: reduction modulo [2^32] into the
    signed range. *)
Definition to_int (v : Z) : Z := ((v + 2 ^ 31) mod 2 ^ 32 - 2 ^ 31)%Z.

(** [atoi s] is [(int) strtol (s, NULL, 10)]. *)
Definition atoi (s : string) : Z := to_int (strtol s).

(** [strtoull (s, &end, 10)]: the value and the text [end] points to.
    Without a digit nothing is converted: the value is 0 and [end] is the
    start of [s].  A value above [ULLONG_MAX] saturates; a minus sign
    negates modulo [2^64]. *)
Definition strtoull (s : string) : Z * string :=
  let '(neg, s1) := read_sign (skip_spaces s) in
  let '(v, n, rest) := read_digits 0 0 s1 in
  match n with
  | O => (0%Z, s)
  | S _ =>
      if (ULLONG_MAX <? v)%Z then (ULLONG_MAX, rest)
      else ((if neg then (- v) mod 2 ^ 64 else v)%Z, rest)
  end.

(** [s.find (needle, pos)]; [None] is [npos]. *)
Definition find (needle : string) (pos : nat) (s : string) : option nat :=
  String.index pos needle s.

Fixpoint first_not_of_from (set : list ascii) (i : nat) (l : list ascii) : option nat :=
  match l with
  | [] => None
  | c :: r => if bool_decide (c ∈ set) then first_not_of_from set (S i) r else Some i
  end.

(** [s.find_first_not_of (set, pos)]. *)
Definition find_first_not_of (set : string) (pos : nat) (s : string) : option nat :=
  first_not_of_from (chars set) pos (drop pos (chars s)).

Definition size_t_sub (a b : N) : N := ((a + 2 ^ 64 - b) mod 2 ^ 64)%N.

Definition npos : N := (2 ^ 64 - 1)%N.

Definition pos_or_npos (p : option nat) : N :=
  match p with Some n => N.of_nat n | None => npos end.

(** [s.substr (pos, count)] for [pos <= s.size ()]. *)
Definition substr (s : string) (pos : nat) (count : N) : string :=
  let avail := (N.of_nat (String.length s) - N.of_nat pos)%N in
  String.substring pos (N.to_nat (N.min count avail)) s.

(** [s.find (prefix) == 0]. *)
Definition starts_with (prefix s : string) : bool :=
  bool_decide (find prefix 0 s = Some 0%nat).

End CStr.

(** ** Rule records ([santa.h]) *)

(** Modelled from the spec: the declaration of [RuleEntry] in the current
    [santa.h] is missing (the header at hand predates the team, signing and
    cdhash rules and calls the identifier [shasum]).  The six types are the
    ones [getRuleTypeName] switches over. *)
Inductive RuleType := Binary | Certificate | SigningID | TeamID | CDHash | UnknownType.
Inductive RuleState := Whitelist | Blacklist | UnknownState.

Record RuleEntry := {
  type : RuleType;
  state : RuleState;
  identifier : string;
  custom_message : string
}.

Definition RuleEntries := list RuleEntry.

#[global] Instance RuleType_eq_dec : EqDecision RuleType.
Proof. solve_decision. Defined.
#[global] Instance RuleState_eq_dec : EqDecision RuleState.
Proof. solve_decision. Defined.
#[global] Instance RuleEntry_eq_dec : EqDecision RuleEntry.
Proof. solve_decision. Defined.

Definition getRuleTypeName (t : RuleType) : string :=
  match t with
  | Binary => "binary"
  | Certificate => "certificate"
  | TeamID => "teamid"
  | SigningID => "signingid"
  | CDHash => "cdhash"
  | UnknownType => "unknown"
  end.

Definition getRuleStateName (s : RuleState) : string :=
  match s with
  | Whitelist => "allow"
  | Blacklist => "block"
  | UnknownState => "unknown"
  end.

Definition getTypeFromRuleName (name : string) : RuleType :=
  if bool_decide (name = "certificate") then Certificate
  else if bool_decide (name = "binary") then Binary
  else if bool_decide (name = "teamid") then TeamID
  else if bool_decide (name = "signingid") then SigningID
  else if bool_decide (name = "cdhash") then CDHash
  else UnknownType.

Definition getStateFromRuleName (name : string) : RuleState :=
  if bool_decide (name = "blacklist") || bool_decide (name = "block") then Blacklist
  else if bool_decide (name = "whitelist") || bool_decide (name = "allow") then Whitelist
  else UnknownState.

(** ** Rule snapshot collector ([santa.cpp]) *)

(** [switch (type_val)] of [rulesCallback]. *)
Definition type_of_code (type_val : Z) : RuleType :=
  if (type_val =? 1000)%Z then Binary
  else if (type_val =? 2000)%Z then Certificate
  else if (type_val =? 3000)%Z then SigningID
  else if (type_val =? 4000)%Z then TeamID
  else if (type_val =? 500)%Z then CDHash
  else UnknownType.

(** [argv[1][0] == '1'] on a NUL-terminated string. *)
Definition first_char_is_1 (s : string) : bool :=
  match s with
  | String c _ => bool_decide (c = "1"%char)
  | EmptyString => false
  end.

(** [rulesCallback]: [argv] holds one text per column, [None] for SQL NULL.
    A row of another width is skipped.  The identifier and the state are
    dereferenced unchecked. *)
Definition rulesCallback (argv : list (option string)) (rules : RuleEntries)
  : option RuleEntries :=
  match argv with
  | [a0; a1; a2; a3] =>
      identifier ← a0;
      state_text ← a1;
      let state := if first_char_is_1 state_text then Whitelist else Blacklist in
      let type_val := match a2 with Some t => CStr.atoi t | None => 0%Z end in
      let type := type_of_code type_val in
      let custom_message := match a3 with Some m => m | None => EmptyString end in
      Some (rules ++ [ {| type := type; state := state;
                          identifier := identifier;
                          custom_message := custom_message |} ])%list
  | _ => Some rules
  end.

Definition SQLITE_OK : Z := 0.

(** What the file system and SQLite answer during one [collectSantaRules]. *)
Record RulesDatabase := {
  src_is_open : bool;
  dst_is_open : bool;
  sqlite3_open_rc : Z;
  table_info_rc : Z;
  table_info_columns : list string;
  sqlite3_exec_result : string → Z * list (list (option string));
  sqlite3_close_rc : Z
}.

Fixpoint run_callback (rows : list (list (option string))) (response : RuleEntries)
  : option RuleEntries :=
  match rows with
  | [] => Some response
  | argv :: rest => response' ← rulesCallback argv response; run_callback rest response'
  end.

(** The loop over the rows of [PRAGMA table_info (rules)]. *)
Fixpoint scan_columns (cols : list string) (has_identifier has_shasum : bool) : bool * bool :=
  match cols with
  | [] => (has_identifier, has_shasum)
  | column_name :: rest =>
      if bool_decide (column_name = "identifier") then scan_columns rest true has_shasum
      else if bool_decide (column_name = "shasum") then scan_columns rest has_identifier true
      else scan_columns rest has_identifier has_shasum
  end.

Definition rules_query (id_column : string) : string :=
  "SELECT " ++ id_column ++ ", state, type, custommsg FROM rules;".

Definition collectSantaRules (db : RulesDatabase) : option (bool * RuleEntries) :=
  let response : RuleEntries := [] in
  if negb (src_is_open db) then Some (false, response)
  else if negb (dst_is_open db) then Some (false, response)
  else if negb (sqlite3_open_rc db =? SQLITE_OK)%Z then Some (false, response)
  else if negb (table_info_rc db =? SQLITE_OK)%Z then Some (false, response)
  else
    let '(has_identifier, has_shasum) := scan_columns (table_info_columns db) false false in
    let id_column :=
      if has_identifier then Some "identifier"
      else if has_shasum then Some "shasum" else None in
    match id_column with
    | None => Some (false, response)
    | Some id_column =>
        let '(rc, rows) := sqlite3_exec_result db (rules_query id_column) in
        response ← run_callback rows response;
        (* [rc] of the query is only logged, then overwritten *)
        let rc := sqlite3_close_rc db in
        Some ((rc =? SQLITE_OK)%Z, response)
    end.

(** ** Process primitive ([utils.cpp]) *)

Record ProcessOutput := {
  std_output : string;
  std_error : string;
  exit_code : Z
}.

Definition dquote : ascii := "034"%char.
Definition backslash : ascii := "092"%char.

(** The loop that puts a backslash before every double quote. *)
Fixpoint escape_quotes (arg : string) : string :=
  match arg with
  | EmptyString => EmptyString
  | String c r =>
      if bool_decide (c = dquote) then String backslash (String c (escape_quotes r))
      else String c (escape_quotes r)
  end.

Fixpoint command_line (cmd : string) (args : list string) : string :=
  match args with
  | [] => cmd
  | arg :: rest =>
      command_line (cmd ++ " " ++ String dquote (escape_quotes arg ++ String dquote EmptyString)) rest
  end.

(** The host of the extension: whether [santactl] can be opened, and what
    [popen] of a command line yields (captured output and exit status, or
    nothing when no pipe could be made). *)
Record Host := {
  santactl_good : bool;
  popen : string → option (string * Z)
}.

Definition ExecuteProcess (host : Host) (path : string) (args : list string)
  : bool * ProcessOutput :=
  let cmd := command_line path args in
  match popen host cmd with
  | None => (false, {| std_output := EmptyString; std_error := EmptyString; exit_code := 0 |})
  | Some (result, status) =>
      (true, {| std_output := result; std_error := EmptyString; exit_code := status |})
  end.

(** ** Rules table ([santarulestable.cpp]) *)

Definition kSantactlPath : string := "/usr/local/bin/santactl".
Definition kMandatoryRuleDeletionError : string :=
  "Failed to modify rules: A required rule was requested to be deleted".

Definition RowID_modulus : N := 2 ^ 32.

(** [generateRowID]: the value of the static generator before its
    increment, and the generator after it. *)
Definition generateRowID (generator : N) : N * N :=
  (generator, ((generator + 1) mod RowID_modulus)%N).

Definition generatePrimaryKey (identifier : string) (t : RuleType) : string :=
  identifier ++ "_" ++ getRuleTypeName t.

Definition generatePrimaryKey_rule (rule : RuleEntry) : string :=
  generatePrimaryKey (identifier rule) (type rule).

Record PrivateData := {
  rowid_to_pkey : gmap N string;
  rule_list : gmap string RuleEntry
}.

(** The tables of one plugin instance and the process-wide generator. *)
Record RulesState := {
  d : PrivateData;
  generator : N
}.

(** [std::unordered_map::insert]: an element whose key is present stays. *)
Definition unordered_insert `{Countable K} {V} (k : K) (v : V) (m : gmap K V) : gmap K V :=
  match m !! k with
  | Some _ => m
  | None => <[k := v]> m
  end.

Record Status := {
  code : Z;
  message : string
}.

Definition ok (s : Status) : bool := (code s =? 0)%Z.

Abbreviation Row := (gmap string string).
Abbreviation QueryData := (list (gmap string string)).

(** What a table operation does to the outside: the commands it runs, and
    the diagnostics of the failure branches of [delete_].  The other [VLOG]
    lines of the source are not recorded. *)
Inductive Effect :=
| Exec (path : string) (args : list string)
| VLog (msg : string).


(** The parsed [json_value_array].  Only strings answer [GetString]. *)
Inductive JsonValue := JNull | JString (s : string) | JOther.
Inductive Document := ParseError | NotArray | JArray (elems : list JsonValue).

Definition IsNull (v : JsonValue) : bool :=
  match v with JNull => true | _ => false end.

Definition GetString (v : JsonValue) : option string :=
  match v with JString s => Some s | _ => None end.

Definition hex_digits : string := "0123456789abcdef".

(** The validation chain of [GetRowData]: the message of the failure status,
    if any. *)
Definition identifier_error (rule_type identifier : string) : option string :=
  if bool_decide (rule_type = "binary") then
    if negb (String.length identifier =? 64)%nat
       || bool_decide (CStr.find_first_not_of hex_digits 0 identifier ≠ None)
    then Some "Invalid 'identifier' value for binary rule" else None
  else if bool_decide (rule_type = "cdhash") then
    if bool_decide (CStr.find_first_not_of hex_digits 0 identifier ≠ None)
    then Some "Invalid 'identifier' value for cdhash rule" else None
  else if bool_decide (rule_type = "teamid") then
    if bool_decide (identifier = EmptyString)
    then Some "Invalid 'identifier' value for teamid rule" else None
  else if bool_decide (rule_type = "signingid") then
    if bool_decide (CStr.find ":" 0 identifier = None) || bool_decide (identifier = EmptyString)
    then Some "Invalid 'identifier' value for signingid rule, expected format: TeamID:BundleID"
    else None
  else if bool_decide (rule_type = "certificate") then
    if bool_decide (CStr.find_first_not_of hex_digits 0 identifier ≠ None)
    then Some "Invalid 'identifier' value for certificate rule - must contain only hex characters"
    else None
  else Some "Invalid 'type' value, must be one of: binary, certificate, teamid, signingid, cdhash".

Definition state_recognized (s : string) : bool :=
  bool_decide (s = "whitelist") || bool_decide (s = "blacklist")
  || bool_decide (s = "allow") || bool_decide (s = "block").

Definition GetRowData (document : Document) : option (Status * Row) :=
  match document with
  | ParseError | NotArray =>
      Some ({| code := 1; message := "Invalid json received by osquery" |}, ∅)
  | JArray [d0; d1; d2; d3] =>
      if IsNull d0 then Some ({| code := 1; message := "Missing 'identifier' value" |}, ∅)
      else if IsNull d1 then Some ({| code := 1; message := "Missing 'state' value" |}, ∅)
      else if IsNull d2 then Some ({| code := 1; message := "Missing 'type' value" |}, ∅)
      else
        msg ← (if IsNull d3 then Some EmptyString else GetString d3);
        let row : Row := <["custom_message" := msg]> ∅ in
        ident ← GetString d0;
        let row := <["identifier" := ident]> row in
        ty ← GetString d2;
        let row := <["type" := ty]> row in
        match identifier_error ty ident with
        | Some reason => Some ({| code := 1; message := reason |}, row)
        | None =>
            st ← GetString d1;
            let row := <["state" := st]> row in
            if negb (state_recognized st) then
              Some ({| code := 1;
                       message := "Invalid 'state' value, must be one of: whitelist, blacklist, allow, block" |},
                    row)
            else Some ({| code := 0; message := "OK" |}, row)
        end
  | JArray _ => Some ({| code := 1; message := "Wrong column count" |}, ∅)
  end.

(** [std::to_string] of a row identifier. *)
Definition to_string (n : N) : string := DecimalString.NilEmpty.string_of_uint (N.to_uint n).

Definition failure : QueryData := [ {[ "status" := "failure" ]} ].
Definition failure_with (msg : string) : QueryData :=
  [ <["message" := msg]> {[ "status" := "failure" ]} ].

(** The type flag that follows [--identifier <identifier>] in [insert]. *)
Definition insert_type_args (rule_type identifier : string) : list string :=
  if bool_decide (rule_type = "binary") then ["--identifier"; identifier]
  else if bool_decide (rule_type = "certificate") then ["--identifier"; identifier; "--certificate"]
  else if bool_decide (rule_type = "teamid") then ["--identifier"; identifier; "--teamid"]
  else if bool_decide (rule_type = "signingid") then ["--identifier"; identifier; "--signingid"]
  else if bool_decide (rule_type = "cdhash") then ["--identifier"; identifier; "--cdhash"]
  else [].

(** The [switch (rule.type)] of [delete_]; [None] is its default branch. *)
Definition remove_type_args (rule : RuleEntry) : option (list string) :=
  match type rule with
  | Binary => Some ["--identifier"; identifier rule]
  | Certificate => Some ["--identifier"; identifier rule; "--certificate"]
  | TeamID => Some ["--identifier"; identifier rule; "--teamid"]
  | SigningID => Some ["--identifier"; identifier rule; "--signingid"]
  | CDHash => Some ["--identifier"; identifier rule; "--cdhash"]
  | UnknownType => None
  end.

Section RulesTable.

(** The order in which an [unordered_map<RowID, std::string>] is walked. *)
Variable iteration : gmap N string → list (N * string).
Hypothesis iteration_perm : ∀ m, iteration m ≡ₚ map_to_list m.

(** [std::find_if] over the old mapping: the first row whose key matches. *)
Definition find_rowid (old_rowid_mappings : gmap N string) (primary_key : string)
  : option N :=
  fst <$> List.find (λ p, bool_decide (primary_key = p.2)) (iteration old_rowid_mappings).

(** The [for] loop of [updateRules]. *)
Fixpoint updateRules_loop (old_rowid_mappings : gmap N string)
    (new_rule_list : RuleEntries) (st : RulesState) : RulesState :=
  match new_rule_list with
  | [] => st
  | new_rule :: rest =>
      let primary_key := generatePrimaryKey_rule new_rule in
      let rule_list' := unordered_insert primary_key new_rule (rule_list (d st)) in
      let '(rowid, generator') :=
        match find_rowid old_rowid_mappings primary_key with
        | None => generateRowID (generator st)
        | Some rowid => (rowid, generator st)
        end in
      updateRules_loop old_rowid_mappings rest
        {| d := {| rowid_to_pkey := unordered_insert rowid primary_key (rowid_to_pkey (d st));
                   rule_list := rule_list' |};
           generator := generator' |}
  end.

Definition updateRules (db : RulesDatabase) (st : RulesState) : option (Status * RulesState) :=
  '(collected, new_rule_list) ← collectSantaRules db;
  if negb collected then
    Some ({| code := 1; message := "Failed to enumerate the Santa rules" |}, st)
  else
    let old_rowid_mappings := rowid_to_pkey (d st) in
    Some ({| code := 0; message := "OK" |},
          updateRules_loop old_rowid_mappings new_rule_list
            {| d := {| rowid_to_pkey := ∅; rule_list := ∅ |};
               generator := generator st |}).

(** [row[k]] on a [std::map]: a missing key reads as the empty string. *)
Definition row_get (row : Row) (k : string) : string := default EmptyString (row !! k).

Definition inserted (row_id : N) : QueryData :=
  [ <["status" := "success"]> {[ "id" := to_string row_id ]} ].

(** [insert]: the reply, the new state and the commands that were run. *)
Definition insert (host : Host) (db : RulesDatabase) (document : Document)
    (st : RulesState) : option (QueryData * RulesState * list Effect) :=
  '(status, row) ← GetRowData document;
  if negb (ok status) then Some (failure, st, [])
  else
    let whitelist :=
      bool_decide (row_get row "state" = "whitelist")
      || bool_decide (row_get row "state" = "allow") in
    let rule_type := row_get row "type" in
    identifier ← row !! "identifier";
    custom_message ← row !! "custom_message";
    let state_arg := if whitelist then "--allow" else "--block" in
    if negb (santactl_good host) then Some (failure_with "santactl not found", st, [])
    else
      let santactl_args :=
        (["rule"; state_arg] ++ insert_type_args rule_type identifier
         ++ (if bool_decide (custom_message = EmptyString) then []
             else ["--message"; custom_message]))%list in
      let '(executed, santactl_output) := ExecuteProcess host kSantactlPath santactl_args in
      let effects := [Exec kSantactlPath santactl_args] in
      if negb executed then
        Some (failure_with "Failed to execute santactl process", st, effects)
      else if negb (exit_code santactl_output =? 0)%Z then
        Some (failure_with ("santactl command failed: " ++ std_output santactl_output),
              st, effects)
      else
        '(status, st) ← updateRules db st;
        if negb (ok status) then
          Some (failure_with ("Failed to update rules: " ++ message status), st, effects)
        else
          let enum_type := getTypeFromRuleName rule_type in
          let primary_key := generatePrimaryKey identifier enum_type in
          let wanted_state := getStateFromRuleName (row_get row "state") in
          let matches (p : N * string) :=
            bool_decide (primary_key = p.2)
            && match rule_list (d st) !! primary_key with
               | None => false
               | Some rule =>
                   bool_decide (type rule = enum_type)
                   && bool_decide (state rule = wanted_state)
               end in
          match List.find matches (iteration (rowid_to_pkey (d st))) with
          | Some (rowid, _) => Some (inserted rowid, st, effects)
          | None =>
              let '(row_id, generator') := generateRowID (generator st) in
              let new_rule :=
                {| type := enum_type; state := wanted_state;
                   identifier := identifier; custom_message := custom_message |} in
              let synthetic_key := generatePrimaryKey_rule new_rule in
              Some (inserted row_id,
                    {| d := {| rowid_to_pkey :=
                                 unordered_insert row_id synthetic_key (rowid_to_pkey (d st));
                               rule_list :=
                                 unordered_insert synthetic_key new_rule (rule_list (d st)) |};
                       generator := generator' |},
                    effects)
          end.

Definition mandatory_diagnostic (rule : RuleEntry) : string :=
  "Rule " ++ identifier rule ++ "/" ++ getRuleTypeName (type rule)
  ++ " is mandatory and can't be removed".

(** [delete_] on the [id] of the request. *)
Definition delete_ (host : Host) (db : RulesDatabase) (id : string)
    (st : RulesState) : option (QueryData * RulesState * list Effect) :=
  let '(temp, null_term_ptr) := CStr.strtoull id in
  if negb (bool_decide (null_term_ptr = EmptyString)) then Some (failure, st, [])
  else
    let rowid := Z.to_N (temp mod 2 ^ 32) in
    match rowid_to_pkey (d st) !! rowid with
    | None => Some (failure, st, [])
    | Some pkey =>
        match rule_list (d st) !! pkey with
        | None => Some (failure, st, [])
        | Some rule =>
            match remove_type_args rule with
            | None => Some (failure, st, [])
            | Some type_args =>
                let santactl_args := (["rule"; "--remove"] ++ type_args)%list in
                let '(executed, santactl_output) :=
                  ExecuteProcess host kSantactlPath santactl_args in
                let effects := [Exec kSantactlPath santactl_args] in
                if negb executed || negb (exit_code santactl_output =? 0)%Z then
                  let diagnostic :=
                    if CStr.starts_with kMandatoryRuleDeletionError (std_output santactl_output)
                    then VLog (mandatory_diagnostic rule)
                    else VLog "Failed to remove the rule" in
                  Some (failure, st, (effects ++ [diagnostic])%list)
                else
                  '(status, st) ← updateRules db st;
                  if negb (ok status) then Some (failure, st, effects)
                  else Some ([ {[ "status" := "success" ]} ], st, effects)
            end
        end
    end.

End RulesTable.

(** ** Log ingestion ([santa.cpp]) *)

Inductive SantaDecisionType := kAllowed | kDenied.

Record LogEntry := {
  timestamp : string;
  application : string;
  reason : string;
  sha256 : string
}.

Definition LogEntries := list LogEntry.

Definition kLogEntryPreface : string := "santad: ".

(** The timestamp part of [extractValues]. *)
Definition extract_timestamp (line : string) (values : gmap string string)
  : gmap string string :=
  match CStr.find "[" 0 line, CStr.find "]" 0 line with
  | Some timestamp_start, Some timestamp_end =>
      if bool_decide (timestamp_start ≠ timestamp_end) then
        let count :=
          CStr.size_t_sub
            (CStr.size_t_sub (N.of_nat timestamp_end) (N.of_nat timestamp_start)) 1 in
        <["timestamp" := CStr.substr line (timestamp_start + 1) count]> values
      else values
  | _, _ => values
  end.

(** The [while] loop of [extractValues]; [key_pos = None] is [npos].  Every
    round moves [key_pos] forward, so the length of the line bounds the
    number of rounds. *)
Fixpoint extract_pairs (rounds : nat) (line : string) (key_pos : option nat)
    (values : gmap string string) : gmap string string :=
  match rounds, key_pos with
  | S rounds, Some key_pos =>
      match CStr.find "=" key_pos line with
      | None => values
      | Some key_end =>
          match CStr.find_first_not_of "=" key_end line with
          | None => values
          | Some val_pos =>
              let val_end := CStr.find "|" val_pos line in
              let key := CStr.substr line key_pos (N.of_nat key_end - N.of_nat key_pos) in
              let val :=
                CStr.substr line val_pos
                  (CStr.size_t_sub (CStr.pos_or_npos val_end) (N.of_nat val_pos)) in
              extract_pairs rounds line (S <$> val_end) (unordered_insert key val values)
          end
      end
  | _, _ => values
  end.

Definition extractValues (line : string) : gmap string string :=
  let values := extract_timestamp line ∅ in
  match CStr.find kLogEntryPreface 0 line with
  | None => values
  | Some key_pos =>
      extract_pairs (String.length line) line
        (Some (key_pos + String.length kLogEntryPreface)) values
  end.

Definition field (values : gmap string string) (k : string) : string :=
  default EmptyString (values !! k).

Definition entry_of_line (line : string) : LogEntry :=
  let values := extractValues line in
  {| timestamp := field values "timestamp";
     application := field values "path";
     reason := field values "reason";
     sha256 := field values "sha256" |}.

(** The filter at the head of the loop of [scrapeStream]. *)
Definition line_selected (decision : SantaDecisionType) (line : string) : bool :=
  match decision with
  | kAllowed => bool_decide (CStr.find "decision=ALLOW" 0 line ≠ None)
  | kDenied => bool_decide (CStr.find "decision=DENY" 0 line ≠ None)
  end.

(** [scrapeStream]: [incoming] holds the lines [std::getline] yields. *)
Fixpoint scrapeStream (incoming : list string) (response : LogEntries)
    (save_to_archive : bool) (decision : SantaDecisionType)
    (archived_lines : list string) : LogEntries * list string :=
  match incoming with
  | [] => (response, archived_lines)
  | line :: rest =>
      if negb (line_selected decision line) then
        scrapeStream rest response save_to_archive decision archived_lines
      else
        scrapeStream rest (response ++ [entry_of_line line])%list save_to_archive decision
          (if save_to_archive then (archived_lines ++ [line])%list else archived_lines)
  end.

(** A rotated archive: not there, there but not decodable, or its lines. *)
Inductive GzFile := GzMissing | GzDamaged | GzText (lines : list string).

(** The live log (if it can be opened) and the archives [<log>.<i>.gz] by
    index [i]; an index past the list has no file. *)
Record LogFiles := {
  live_log : option (list string);
  archives : list GzFile
}.

Definition archive_file (fs : LogFiles) (i : nat) : GzFile :=
  nth i (archives fs) GzMissing.

(** The two globals of [santa.cpp]. *)
Record ArchiveCache := {
  archived_lines : list string;
  next_oldest_archive : nat
}.

Definition scrapeCurrentLog (fs : LogFiles) (decision : SantaDecisionType) : LogEntries :=
  match live_log fs with
  | None => []
  | Some lines => fst (scrapeStream lines [] false decision [])
  end.

Definition scrapeCompressedSantaLog (file : GzFile) (response : LogEntries)
    (decision : SantaDecisionType) (lines : list string)
  : bool * LogEntries * list string :=
  match file with
  | GzMissing => (false, response, lines)
  | GzDamaged => (false, response, lines)
  | GzText content =>
      let '(response, lines) := scrapeStream content response true decision lines in
      (true, response, lines)
  end.

Definition newArchiveFileExists (fs : LogFiles) (cache : ArchiveCache) : bool :=
  match archive_file fs (next_oldest_archive cache) with
  | GzMissing => false
  | _ => true
  end.

Definition processArchivedLines (response : LogEntries) (cache : ArchiveCache) : LogEntries :=
  (response ++ map entry_of_line (archived_lines cache))%list.

(** The [for (i = 0;; ++i)] loop of [scrapeSantaLog], at most [rounds]
    rounds of it. *)
Fixpoint rescan (rounds : nat) (fs : LogFiles) (i : nat) (response : LogEntries)
    (decision : SantaDecisionType) (cache : ArchiveCache) : LogEntries * ArchiveCache :=
  match rounds with
  | O => (response, cache)
  | S rounds =>
      match scrapeCompressedSantaLog (archive_file fs i) response decision
              (archived_lines cache) with
      | (false, response, lines) =>
          (response, {| archived_lines := lines; next_oldest_archive := i |})
      | (true, response, lines) =>
          rescan rounds fs (S i) response decision
            {| archived_lines := lines; next_oldest_archive := i |}
      end
  end.

(** [scrapeSantaLog].  The loop ends at the first index without a file, so
    one round more than there are archives is enough. *)
Definition scrapeSantaLog (fs : LogFiles) (decision : SantaDecisionType)
    (cache : ArchiveCache) : bool * LogEntries * ArchiveCache :=
  let response := scrapeCurrentLog fs decision in
  if negb (newArchiveFileExists fs cache) then
    (true, processArchivedLines response cache, cache)
  else
    let cache := {| archived_lines := []; next_oldest_archive := next_oldest_archive cache |} in
    let '(response, cache) :=
      rescan (S (List.length (archives fs))) fs 0 response decision cache in
    (true, response, cache).

(** ** Reference definitions for the statements *)

(** The events of the lines of one source that a decision class selects. *)
Definition events (decision : SantaDecisionType) (lines : list string) : LogEntries :=
  map entry_of_line (filter (λ l, line_selected decision l = true) lines).

(** The archives read by a scan from index 0: all up to the first that is
    missing or damaged. *)
Fixpoint decoded_archives (files : list GzFile) : list (list string) :=
  match files with
  | GzText lines :: rest => lines :: decoded_archives rest
  | _ => []
  end.

(** ** Sample inputs *)

(** A snapshot whose rules query fails with [SQLITE_ERROR] while every other
    call succeeds. *)
Definition query_error_db : RulesDatabase :=
  {| src_is_open := true; dst_is_open := true;
     sqlite3_open_rc := 0; table_info_rc := 0;
     table_info_columns := ["identifier"; "state"; "type"; "custommsg"];
     sqlite3_exec_result := λ _, (1%Z, []);
     sqlite3_close_rc := 0 |}.

Definition one_rule_state : RulesState :=
  {| d := {| rowid_to_pkey := {[ 0%N := "abc_binary" ]};
             rule_list := {[ "abc_binary" :=
                              {| type := Binary; state := Whitelist;
                                 identifier := "abc"; custom_message := EmptyString |} ]} |};
     generator := 1 |}.

Definition no_rule_state (g : N) : RulesState :=
  {| d := {| rowid_to_pkey := ∅; rule_list := ∅ |}; generator := g |}.

(** A snapshot that reads cleanly and holds no rule. *)
Definition empty_db : RulesDatabase :=
  {| src_is_open := true; dst_is_open := true;
     sqlite3_open_rc := 0; table_info_rc := 0;
     table_info_columns := ["identifier"; "state"; "type"; "custommsg"];
     sqlite3_exec_result := λ _, (0%Z, []);
     sqlite3_close_rc := 0 |}.

Definition unknown_rule_state : RulesState :=
  {| d := {| rowid_to_pkey := {[ 0%N := "abc_unknown" ]};
             rule_list := {[ "abc_unknown" :=
                              {| type := UnknownType; state := Blacklist;
                                 identifier := "abc"; custom_message := EmptyString |} ]} |};
     generator := 1 |}.

Definition mandatory_output : string := kMandatoryRuleDeletionError ++ ": abc".
Definition generic_output : string := "santactl: not permitted".

(** [santactl] refuses to remove a mandatory rule. *)
Definition refusing_host : Host :=
  {| santactl_good := true; popen := λ _, Some (mandatory_output, 1%Z) |}.

(** [santactl] fails for another reason. *)
Definition failing_host : Host :=
  {| santactl_good := true; popen := λ _, Some (generic_output, 1%Z) |}.

(** [santactl] succeeds silently. *)
Definition obliging_host : Host :=
  {| santactl_good := true; popen := λ _, Some (EmptyString, 0%Z) |}.

(** The reply part of what a table operation returns. *)
Definition reply {A B C : Type} (r : option (A * B * C)) : option A := (λ x, x.1.1) <$> r.

(** An insert payload of four columns; the message is a string or null. *)
Definition payload (ident state_text rule_type : string) (msg : option string) : Document :=
  JArray [JString ident; JString state_text; JString rule_type; from_option JString JNull msg].

Definition accepted (document : Document) : Prop :=
  ∃ row, GetRowData document = Some ({| code := 0; message := "OK" |}, row).

Definition lower_hex (c : ascii) : Prop := c ∈ CStr.chars hex_digits.

(** A SHA-256 digest in text: 64 lowercase hexadecimal characters. *)
Definition is_digest (s : string) : Prop :=
  String.length s = 64%nat ∧ Forall lower_hex (CStr.chars s).

Definition has_colon (s : string) : Prop := ":"%char ∈ CStr.chars s.

(** The events of the live log for a decision class. *)
Definition live_events (fs : LogFiles) (decision : SantaDecisionType) : LogEntries :=
  from_option (events decision) [] (live_log fs).

Definition selected_lines (decision : SantaDecisionType) (lines : list string) : list string :=
  filter (λ l, line_selected decision l = true) lines.

Definition allow_line : string :=
  "[2024-01-01T10:00:00.000Z] I santad: action=EXEC|decision=ALLOW|reason=CERT|sha256=aa11|path=/bin/ls".
Definition deny_line : string :=
  "[2024-01-02T11:30:00.000Z] I santad: action=EXEC|decision=DENY|reason=BINARY|sha256=bb22|path=/tmp/x".

Definition allow_entry : LogEntry :=
  {| timestamp := "2024-01-01T10:00:00.000Z"; application := "/bin/ls";
     reason := "CERT"; sha256 := "aa11" |}.
Definition deny_entry : LogEntry :=
  {| timestamp := "2024-01-02T11:30:00.000Z"; application := "/tmp/x";
     reason := "BINARY"; sha256 := "bb22" |}.

(** No live log and one archive with an allowed and a denied execution. *)
Definition rotated_logs : LogFiles :=
  {| live_log := None; archives := [GzText [allow_line; deny_line]] |}.

Definition fresh_cache : ArchiveCache :=
  {| archived_lines := []; next_oldest_archive := 0 |}.

(** ** Vocabulary for the identity map *)

(** The primary keys of a collected rule sequence, in order. *)
Definition keys_of (rules : RuleEntries) : list string := map generatePrimaryKey_rule rules.

(** Some row identifier stands for the key [pk]. *)
Definition mapped (m : gmap N string) (pk : string) : Prop := ∃ r, m !! r = Some pk.

(** Every row identifier in use was issued by the generator. *)
Definition rowids_below (m : gmap N string) (g : N) : Prop :=
  ∀ r pk, m !! r = Some pk → (r < g)%N.

(** A key that occurs more than once in the sequence is one the old mapping
    knows. *)
Fixpoint repeats_mapped (old : gmap N string) (keys : list string) : Prop :=
  match keys with
  | [] => True
  | pk :: rest => (pk ∈ rest → mapped old pk) ∧ repeats_mapped old rest
  end.

(** How an entry of the mapping under construction came about: its row
    identifier is the one found for its key in the old mapping, or its key
    is unknown there and the generator issued the identifier since the
    refresh began. *)
Definition tracked (iteration : gmap N string → list (N * string))
    (old : gmap N string) (g0 : N) (m : gmap N string) (g : N) : Prop :=
  ∀ r pk, m !! r = Some pk →
    find_rowid iteration old pk = Some r
    ∨ (find_rowid iteration old pk = None ∧ (g0 ≤ r < g)%N).

(** No key has two row identifiers. *)
Definition single_rowid (m : gmap N string) : Prop :=
  ∀ pk r1 r2, m !! r1 = Some pk → m !! r2 = Some pk → r1 = r2.

(** A key of the old mapping that is collected again keeps a row identifier
    it had, and has no other. *)
Definition refresh_keeps (old new : gmap N string) (rules : RuleEntries) : Prop :=
  ∀ pk, mapped old pk → pk ∈ keys_of rules →
    ∃ r, old !! r = Some pk ∧ new !! r = Some pk ∧ ∀ r', new !! r' = Some pk → r' = r.

(** A collected key that the old mapping does not know is mapped, and only
    to row identifiers the generator issued during this refresh, which the
    old mapping did not use. *)
Definition refresh_mints (old new : gmap N string) (rules : RuleEntries) (g g' : N) : Prop :=
  ∀ pk, ¬ mapped old pk → pk ∈ keys_of rules →
    mapped new pk
    ∧ ∀ r, new !! r = Some pk → (g ≤ r < g')%N ∧ old !! r = None.

(** A key that is not collected has no entry. *)
Definition refresh_releases (new : gmap N string) (rules : RuleEntries) : Prop :=
  ∀ pk, pk ∉ keys_of rules → ¬ mapped new pk.

(** The [rule_list] the loop of [updateRules] builds. *)
Definition collected_rule_list (rules : RuleEntries) (init : gmap string RuleEntry)
  : gmap string RuleEntry :=
  foldl (λ rl rule, unordered_insert (generatePrimaryKey_rule rule) rule rl) init rules.

Definition OK : Status := {| code := 0; message := "OK" |}.

(** A snapshot with two rules of one identifier whose type codes are both
    unknown to the extension. *)
Definition twin_db : RulesDatabase :=
  {| src_is_open := true; dst_is_open := true;
     sqlite3_open_rc := 0; table_info_rc := 0;
     table_info_columns := ["identifier"; "state"; "type"; "custommsg"];
     sqlite3_exec_result :=
       λ _, (0%Z, [ [Some "abc"; Some "1"; Some "7"; None];
                    [Some "abc"; Some "2"; Some "8"; None] ]);
     sqlite3_close_rc := 0 |}.

(** A snapshot with one binary and one certificate rule. *)
Definition two_rule_db : RulesDatabase :=
  {| src_is_open := true; dst_is_open := true;
     sqlite3_open_rc := 0; table_info_rc := 0;
     table_info_columns := ["identifier"; "state"; "type"; "custommsg"];
     sqlite3_exec_result :=
       λ _, (0%Z, [ [Some "abc"; Some "1"; Some "1000"; None];
                    [Some "def"; Some "2"; Some "2000"; Some "no"] ]);
     sqlite3_close_rc := 0 |}.

Definition two_rules : RuleEntries :=
  [ {| type := Binary; state := Whitelist; identifier := "abc";
       custom_message := EmptyString |};
    {| type := Certificate; state := Blacklist; identifier := "def";
       custom_message := "no" |} ].


(** A state with two rules, on rows 0 and 1. *)
Definition two_key_state : RulesState :=
  {| d := {| rowid_to_pkey := <[1%N := "old_teamid"]> {[ 0%N := "abc_binary" ]};
             rule_list :=
               <["old_teamid" := {| type := TeamID; state := Blacklist;
                                    identifier := "old"; custom_message := EmptyString |}]>
                 {[ "abc_binary" :=
                      {| type := Binary; state := Whitelist;
                         identifier := "abc"; custom_message := EmptyString |} ]} |};
     generator := 2 |}.

(** A state at the top of the row identifier range: one rule on row 0 and
    the generator at its last value. *)
Definition wrap_state : RulesState :=
  {| d := {| rowid_to_pkey := {[ 0%N := "a_binary" ]};
             rule_list := {[ "a_binary" :=
                              {| type := Binary; state := Whitelist;
                                 identifier := "a"; custom_message := EmptyString |} ]} |};
     generator := 4294967295 |}.

(** A snapshot with three binary rules, the known one last. *)
Definition wrap_db : RulesDatabase :=
  {| src_is_open := true; dst_is_open := true;
     sqlite3_open_rc := 0; table_info_rc := 0;
     table_info_columns := ["identifier"; "state"; "type"; "custommsg"];
     sqlite3_exec_result :=
       λ _, (0%Z, [ [Some "b"; Some "1"; Some "1000"; None];
                    [Some "c"; Some "1"; Some "1000"; None];
                    [Some "a"; Some "1"; Some "1000"; None] ]);
     sqlite3_close_rc := 0 |}.

Definition wrap_rules : RuleEntries :=
  [ {| type := Binary; state := Whitelist; identifier := "b";
       custom_message := EmptyString |};
    {| type := Binary; state := Whitelist; identifier := "c";
       custom_message := EmptyString |};
    {| type := Binary; state := Whitelist; identifier := "a";
       custom_message := EmptyString |} ].

(** A request that [GetRowData] turns down before it reads a column as a
    string: not JSON, not an array, not of four columns, or with a null
    identifier, state or type. *)
Definition malformed (document : Document) : Prop :=
  match document with
  | ParseError | NotArray => True
  | JArray [d0; d1; d2; d3] => IsNull d0 = true ∨ IsNull d1 = true ∨ IsNull d2 = true
  | JArray _ => True
  end.
From Stdlib Require DecimalPos DecimalN.

(** ** The remaining table entry points *)

(** One row of the rules table, as [generate] fills it. *)
Definition rule_row (rowid : N) (rule : RuleEntry) : Row :=
  <["custom_message" := custom_message rule]>
    (<["type" := getRuleTypeName (type rule)]>
       (<["state" := getRuleStateName (state rule)]>
          (<["identifier" := identifier rule]> {[ "rowid" := to_string rowid ]}))).

(** The loop of [generate] over the copy of [rowid_to_pkey]: a row
    identifier whose key has no rule is logged and skipped. *)
Fixpoint generate_rows (rule_list : gmap string RuleEntry) (pairs : list (N * string))
  : list (gmap string string) :=
  match pairs with
  | [] => []
  | (rowid, pkey) :: rest =>
      match rule_list !! pkey with
      | None => generate_rows rule_list rest
      | Some rule => rule_row rowid rule :: generate_rows rule_list rest
      end
  end.

(** [SantaRulesTablePlugin::generate]. *)
Definition generate (iteration : gmap N string → list (N * string))
    (db : RulesDatabase) (st : RulesState) : option (list (gmap string string) * RulesState) :=
  '(status, st) ← updateRules iteration db st;
  if negb (ok status) then Some ([ {[ "status" := "failure" ]} ], st)
  else
    let rowid_to_pkey := rowid_to_pkey (d st) in
    let rule_list := rule_list (d st) in
    Some (generate_rows rule_list (iteration rowid_to_pkey), st).

(** [SantaRulesTablePlugin::update]. *)
Definition update : QueryData := failure.

(** One row of a decisions table ([santadecisionstable.cpp]). *)
Definition decision_row (entry : LogEntry) : Row :=
  <["reason" := reason entry]>
    (<["shasum" := sha256 entry]>
       (<["path" := application entry]> {[ "timestamp" := timestamp entry ]})).

(** [decisionTablesGenerate]. *)
Definition decisionTablesGenerate (fs : LogFiles) (decision : SantaDecisionType)
    (cache : ArchiveCache) : list (gmap string string) * ArchiveCache :=
  let '(scraped, log_entries, cache) := scrapeSantaLog fs decision cache in
  if negb scraped then ([], cache)
  else (map decision_row log_entries, cache).

(** ** Vocabulary for the further properties *)

(** The value of a decimal numeral read from the left with an accumulator. *)
Fixpoint uint_acc (acc : Z) (u : Decimal.uint) : Z :=
  match u with
  | Decimal.Nil => acc
  | Decimal.D0 u => uint_acc (10 * acc) u
  | Decimal.D1 u => uint_acc (10 * acc + 1) u
  | Decimal.D2 u => uint_acc (10 * acc + 2) u
  | Decimal.D3 u => uint_acc (10 * acc + 3) u
  | Decimal.D4 u => uint_acc (10 * acc + 4) u
  | Decimal.D5 u => uint_acc (10 * acc + 5) u
  | Decimal.D6 u => uint_acc (10 * acc + 6) u
  | Decimal.D7 u => uint_acc (10 * acc + 7) u
  | Decimal.D8 u => uint_acc (10 * acc + 8) u
  | Decimal.D9 u => uint_acc (10 * acc + 9) u
  end.

(** A row the callback can convert: four columns, identifier and state not
    NULL. *)
Definition convertible (argv : list (option string)) : Prop :=
  ∃ ident state_text a2 a3, argv = [Some ident; Some state_text; a2; a3].

(** A row that makes the callback dereference a null pointer. *)
Definition null_deref (argv : list (option string)) : Prop :=
  ∃ a0 a1 a2 a3, argv = [a0; a1; a2; a3] ∧ (a0 = None ∨ a1 = None).

(** The rule a convertible row stands for. *)
Definition rule_of_row (argv : list (option string)) : option RuleEntry :=
  match argv with
  | [Some ident; Some state_text; a2; a3] =>
      Some {| type := type_of_code (from_option CStr.atoi 0%Z a2);
              state := if first_char_is_1 state_text then Whitelist else Blacklist;
              identifier := ident;
              custom_message := default EmptyString a3 |}
  | _ => None
  end.

(** The names [getRuleTypeName] gives to the five types an insert may use. *)
Definition insert_type_names : list string :=
  ["binary"; "certificate"; "teamid"; "signingid"; "cdhash"].

(** What the rules query over the column [id_column] contributes to
    [collectSantaRules]. *)
Definition query_outcome (db : RulesDatabase) (id_column : string)
  : option (bool * RuleEntries) :=
  rules ← run_callback (sqlite3_exec_result db (rules_query id_column)).2 [];
  Some ((sqlite3_close_rc db =? SQLITE_OK)%Z, rules).

(** The first collected rule with the primary key [pk]. *)
Definition first_rule (pk : string) (rules : RuleEntries) : option RuleEntry :=
  List.find (λ rule, bool_decide (generatePrimaryKey_rule rule = pk)) rules.

(** The row [GetRowData] fills from a payload it accepts. *)
Definition payload_row (ident state_text rule_type : string) (msg : option string) : Row :=
  <["state" := state_text]>
    (<["type" := rule_type]>
       (<["identifier" := ident]> (<["custom_message" := default EmptyString msg]> ∅))).

(** The index at which a scan from index 0 stops. *)
Definition scan_stop (fs : LogFiles) : nat := List.length (decoded_archives (archives fs)).

(** The events a scan of the archives yields for a decision class. *)
Definition archive_events (fs : LogFiles) (decision : SantaDecisionType) : LogEntries :=
  concat (map (events decision) (decoded_archives (archives fs))).

(** The body of a log line: [key=value] pairs with a pipe between them. *)
Fixpoint render_pairs (pairs : list (string * string)) : string :=
  match pairs with
  | [] => EmptyString
  | (k, v) :: rest =>
      match rest with
      | [] => k ++ String "=" v
      | _ :: _ => k ++ String "=" (v ++ String "|" (render_pairs rest))
      end
  end.

(** A pair the scan reads back as it is: no [=] in the key, no pipe in the
    value, and the value does not begin with [=]. *)
Definition pair_ok (p : string * string) : Prop :=
  ("="%char ∉ CStr.chars (fst p)) ∧ ("|"%char ∉ CStr.chars (snd p))
  ∧ ∀ r, snd p ≠ String "=" r.

(** The value of the last pair is not empty. *)
Definition last_value_present (pairs : list (string * string)) : Prop :=
  ∀ p, last pairs = Some p → snd p ≠ EmptyString.

(** The fields the pairs give on top of [values], the first value of a key
    winning. *)
Definition fields_of (pairs : list (string * string)) (values : gmap string string)
  : gmap string string :=
  foldl (λ m p, unordered_insert (fst p) (snd p) m) values pairs.


(** The two rules of [twin_db]: one key, two states. *)
Definition twin_rules : RuleEntries :=
  [ {| type := UnknownType; state := Whitelist; identifier := "abc";
       custom_message := EmptyString |};
    {| type := UnknownType; state := Blacklist; identifier := "abc";
       custom_message := EmptyString |} ].

(** No live log, one archive that reads and behind it one that is there but
    does not decode. *)
Definition damaged_logs : LogFiles :=
  {| live_log := None; archives := [GzText [allow_line; deny_line]; GzDamaged] |}.

(** * Properties *)

(** ** Rule snapshot collector *)

Lemma type_of_code_known :
  type_of_code 1000 = Binary ∧ type_of_code 2000 = Certificate
  ∧ type_of_code 3000 = SigningID ∧ type_of_code 4000 = TeamID
  ∧ type_of_code 500 = CDHash.
Proof. repeat split; reflexivity. Qed.

Lemma type_of_code_other (v : Z) :
  v ≠ 1000%Z → v ≠ 2000%Z → v ≠ 3000%Z → v ≠ 4000%Z → v ≠ 500%Z →
  type_of_code v = UnknownType.
Proof.
  intros H1 H2 H3 H4 H5. unfold type_of_code.
  apply Z.eqb_neq in H1, H2, H3, H4, H5.
  rewrite H1, H2, H3, H4, H5. reflexivity.
Qed.

(** A row of four columns whose identifier and state are not NULL is always
    appended, whatever its type code; the type follows [type_of_code] and
    the state follows the first character of the state text. *)
Lemma rulesCallback_row (ident state_text : string) (a2 a3 : option string)
    (rules : RuleEntries) :
  rulesCallback [Some ident; Some state_text; a2; a3] rules
  = Some (rules ++ [ {| type := type_of_code (from_option CStr.atoi 0%Z a2);
                        state := if first_char_is_1 state_text then Whitelist else Blacklist;
                        identifier := ident;
                        custom_message := default EmptyString a3 |} ])%list.
Proof. destruct a2, a3; reflexivity. Qed.

Lemma atoi_type_codes :
  CStr.atoi "1000" = 1000%Z ∧ CStr.atoi "2000" = 2000%Z ∧ CStr.atoi "3000" = 3000%Z
  ∧ CStr.atoi "4000" = 4000%Z ∧ CStr.atoi "500" = 500%Z.
Proof. repeat split; reflexivity. Qed.

(** C7.  The type code of a row maps as the claim says and the row is kept,
    but the state is decided on the first character of its text alone: the
    state integer 10 is not 1 and still yields the allow state. *)
Theorem rulesCallback_state_ten_is_allow :
  rulesCallback [Some "abc"; Some "10"; Some "1000"; None] []
  = Some [ {| type := Binary; state := Whitelist;
              identifier := "abc"; custom_message := EmptyString |} ].
Proof. reflexivity. Qed.

(** Every failure before the rules query makes the collection fail. *)
Lemma collectSantaRules_early_failure (db : RulesDatabase) :
  src_is_open db = false ∨ dst_is_open db = false
  ∨ sqlite3_open_rc db ≠ SQLITE_OK ∨ table_info_rc db ≠ SQLITE_OK →
  collectSantaRules db = Some (false, []).
Proof.
  unfold collectSantaRules.
  intros [H|[H|[H|H]]].
  - rewrite H. reflexivity.
  - rewrite H. destruct (src_is_open db); reflexivity.
  - apply Z.eqb_neq in H. rewrite H.
    destruct (src_is_open db), (dst_is_open db); reflexivity.
  - apply Z.eqb_neq in H. rewrite H.
    destruct (src_is_open db), (dst_is_open db), (sqlite3_open_rc db =? SQLITE_OK)%Z;
      reflexivity.
Qed.

(** C5.  When the rules query returns an error and the database closes
    cleanly, the collection reports success, and [updateRules] replaces the
    tables it held by the empty result. *)
Theorem collectSantaRules_query_error_succeeds (iteration : gmap N string → list (N * string)) :
  fst (sqlite3_exec_result query_error_db (rules_query "identifier")) ≠ SQLITE_OK
  ∧ collectSantaRules query_error_db = Some (true, [])
  ∧ updateRules iteration query_error_db one_rule_state
    = Some ({| code := 0; message := "OK" |}, no_rule_state 1).
Proof. repeat split. discriminate. Qed.

(** When the collection does fail, [updateRules] leaves the state alone. *)
Lemma updateRules_failure_keeps_state (iteration : gmap N string → list (N * string))
    (db : RulesDatabase) (rules : RuleEntries) (st : RulesState) :
  collectSantaRules db = Some (false, rules) →
  updateRules iteration db st
  = Some ({| code := 1; message := "Failed to enumerate the Santa rules" |}, st).
Proof. intros H. unfold updateRules. rewrite H. reflexivity. Qed.

(** ** Delete *)

(** An id with text left after the number is rejected before anything runs. *)
Lemma delete_rejects_trailing_text (iteration : gmap N string → list (N * string))
    (host : Host) (db : RulesDatabase) (id : string) (st : RulesState) :
  snd (CStr.strtoull id) ≠ EmptyString →
  delete_ iteration host db id st = Some (failure, st, []).
Proof.
  intros H. unfold delete_. destruct (CStr.strtoull id) as [temp rest]; simpl in H.
  rewrite bool_decide_eq_false_2 by done. reflexivity.
Qed.

(** A row identifier without an entry is rejected before anything runs. *)
Lemma delete_rejects_unmapped (iteration : gmap N string → list (N * string))
    (host : Host) (db : RulesDatabase) (id : string) (st : RulesState) (temp : Z) :
  CStr.strtoull id = (temp, EmptyString) →
  rowid_to_pkey (d st) !! Z.to_N (temp mod 2 ^ 32) = None →
  delete_ iteration host db id st = Some (failure, st, []).
Proof. intros H1 H2. unfold delete_. rewrite H1; simpl. rewrite H2. reflexivity. Qed.

(** C8.  The empty id holds no unsigned integer, yet [strtoull] leaves
    nothing unread and the id passes as row 0: with a rule at row 0 the
    removal command runs. *)
Theorem delete_empty_id_runs_santactl (iteration : gmap N string → list (N * string)) :
  delete_ iteration obliging_host empty_db EmptyString one_rule_state
  = Some ([ {[ "status" := "success" ]} ], no_rule_state 1,
          [Exec kSantactlPath ["rule"; "--remove"; "--identifier"; "abc"]]).
Proof. reflexivity. Qed.

(** C9 as stated fails: the reply for a refused mandatory rule is the reply
    for any other failure of the command. *)
Lemma delete_mandatory_reply_not_distinct :
  CStr.starts_with kMandatoryRuleDeletionError mandatory_output = true
  ∧ CStr.starts_with kMandatoryRuleDeletionError generic_output = false
  ∧ reply (delete_ map_to_list refusing_host empty_db "0" one_rule_state) = Some failure
  ∧ reply (delete_ map_to_list failing_host empty_db "0" one_rule_state) = Some failure.
Proof. repeat split. Qed.

(** C9, amended.  When the removal command cannot be run or exits with a
    non-zero status, [delete_] answers with the one failure status, keeps
    its state, and tells the mandatory-rule refusal apart only in the
    diagnostic it logs. *)
Theorem delete_command_failure (iteration : gmap N string → list (N * string))
    (host : Host) (db : RulesDatabase) (id : string) (st : RulesState)
    (temp : Z) (pkey : string) (rule : RuleEntry) (type_args : list string) :
  CStr.strtoull id = (temp, EmptyString) →
  rowid_to_pkey (d st) !! Z.to_N (temp mod 2 ^ 32) = Some pkey →
  rule_list (d st) !! pkey = Some rule →
  remove_type_args rule = Some type_args →
  let santactl_args := (["rule"; "--remove"] ++ type_args)%list in
  let result := ExecuteProcess host kSantactlPath santactl_args in
  result.1 = false ∨ exit_code result.2 ≠ 0%Z →
  delete_ iteration host db id st
  = Some (failure, st,
          [Exec kSantactlPath santactl_args;
           VLog (if CStr.starts_with kMandatoryRuleDeletionError (std_output result.2)
                 then mandatory_diagnostic rule
                 else "Failed to remove the rule")]).
Proof.
  intros Hid Hrow Hrule Hargs santactl_args result Hfail.
  unfold delete_. rewrite Hid; simpl. rewrite Hrow, Hrule, Hargs.
  subst result santactl_args.
  destruct (ExecuteProcess host kSantactlPath _) as [executed output]; simpl in *.
  assert (negb executed || negb (exit_code output =? 0)%Z = true) as ->.
  { destruct Hfail as [->|Hne]; [reflexivity|].
    apply Z.eqb_neq in Hne. rewrite Hne. apply orb_true_r. }
  destruct (CStr.starts_with _ _); reflexivity.
Qed.

Lemma delete_command_failure_witness :
  delete_ map_to_list refusing_host empty_db "0" one_rule_state
  = Some (failure, one_rule_state,
          [Exec kSantactlPath ["rule"; "--remove"; "--identifier"; "abc"];
           VLog "Rule abc/binary is mandatory and can't be removed"]).
Proof.
  apply (delete_command_failure map_to_list refusing_host empty_db "0" one_rule_state
           0%Z "abc_binary"
           {| type := Binary; state := Whitelist;
              identifier := "abc"; custom_message := EmptyString |}
           ["--identifier"; "abc"]).
  - reflexivity.
  - reflexivity.
  - reflexivity.
  - reflexivity.
  - right. simpl. lia.
Defined.

(** C10.  A row that resolves to a rule of unknown type is refused: the
    reply is the failure status, the state is kept and no command runs. *)
Theorem delete_unknown_type (iteration : gmap N string → list (N * string))
    (host : Host) (db : RulesDatabase) (id : string) (st : RulesState)
    (temp : Z) (pkey : string) (rule : RuleEntry) :
  CStr.strtoull id = (temp, EmptyString) →
  rowid_to_pkey (d st) !! Z.to_N (temp mod 2 ^ 32) = Some pkey →
  rule_list (d st) !! pkey = Some rule →
  type rule = UnknownType →
  delete_ iteration host db id st = Some (failure, st, []).
Proof.
  intros Hid Hrow Hrule Htype.
  unfold delete_. rewrite Hid; simpl. rewrite Hrow, Hrule.
  unfold remove_type_args. rewrite Htype. reflexivity.
Qed.

Lemma delete_unknown_type_witness :
  delete_ map_to_list obliging_host empty_db "0" unknown_rule_state
  = Some (failure, unknown_rule_state, []).
Proof.
  apply (delete_unknown_type map_to_list obliging_host empty_db "0" unknown_rule_state
           0%Z "abc_unknown"
           {| type := UnknownType; state := Blacklist;
              identifier := "abc"; custom_message := EmptyString |});
    reflexivity.
Defined.

(** ** Insert validation *)

Lemma first_not_of_from_None (set : list ascii) (i : nat) (l : list ascii) :
  CStr.first_not_of_from set i l = None ↔ Forall (λ c, c ∈ set) l.
Proof.
  revert i. induction l as [|c l IH]; intros i; simpl.
  - split; [constructor | reflexivity].
  - case_bool_decide as Hc.
    + rewrite IH. split; [by constructor | by inversion 1].
    + split; [discriminate | by inversion 1].
Qed.

Lemma find_first_not_of_hex (s : string) :
  CStr.find_first_not_of hex_digits 0 s = None ↔ Forall lower_hex (CStr.chars s).
Proof. unfold CStr.find_first_not_of. rewrite drop_0. apply first_not_of_from_None. Qed.

Lemma prefix_empty (s : string) : String.prefix EmptyString s = true.
Proof. destruct s; reflexivity. Qed.

Lemma find_colon_None (s : string) :
  CStr.find ":" 0 s = None ↔ ¬ has_colon s.
Proof.
  unfold CStr.find, has_colon, CStr.chars.
  induction s as [|c s IH]; cbn [index String.prefix list_ascii_of_string].
  - split; [intros _ H; inversion H | reflexivity].
  - destruct (ascii_dec ":" c) as [<-|Hne].
    + rewrite prefix_empty.
      split; [intros [=] | intros H; destruct H; constructor].
    + destruct (index 0 ":" s) eqn:E.
      * split; [intros [=]|]. intros H. exfalso.
        enough (Some n = None) by discriminate.
        apply IH. intros Hin. apply H. by constructor.
      * split; [|reflexivity]. intros _ Hin.
        apply elem_of_cons in Hin as [Heq|Hin]; [done|].
        by apply (proj1 IH).
Qed.

Ltac decide_names :=
  repeat first
    [ rewrite bool_decide_eq_true_2 by reflexivity
    | rewrite bool_decide_eq_false_2 by discriminate ].

Lemma identifier_error_binary (ident : string) :
  identifier_error "binary" ident = None ↔ is_digest ident.
Proof.
  unfold identifier_error, is_digest. decide_names.
  rewrite <- find_first_not_of_hex.
  destruct (Nat.eqb_spec (String.length ident) 64) as [Hlen|Hlen]; simpl.
  - case_bool_decide as Hhex.
    + split; [discriminate | intros [_ ?]; done].
    + split; [intros _; split; done | done].
  - split; [discriminate | intros [? _]; done].
Qed.

Lemma identifier_error_certificate (ident : string) :
  identifier_error "certificate" ident = None ↔ Forall lower_hex (CStr.chars ident).
Proof.
  unfold identifier_error. decide_names.
  rewrite <- find_first_not_of_hex.
  case_bool_decide as Hhex.
  - split; [discriminate | done].
  - split; done.
Qed.

Lemma identifier_error_signingid (ident : string) :
  identifier_error "signingid" ident = None ↔ has_colon ident.
Proof.
  unfold identifier_error. decide_names.
  destruct (decide (has_colon ident)) as [Hc|Hc].
  - assert (CStr.find ":" 0 ident ≠ None) as Hf by (rewrite find_colon_None; tauto).
    rewrite bool_decide_eq_false_2 by done.
    assert (ident ≠ EmptyString) as He by (intros ->; inversion Hc).
    rewrite bool_decide_eq_false_2 by done. done.
  - apply find_colon_None in Hc as Hf. rewrite Hf.
    rewrite bool_decide_eq_true_2 by done. simpl. split; [discriminate | done].
Qed.

Lemma identifier_error_teamid (ident : string) :
  identifier_error "teamid" ident = None ↔ ident ≠ EmptyString.
Proof.
  unfold identifier_error. decide_names.
  case_bool_decide; split; (done || discriminate).
Qed.

Lemma GetRowData_payload (ident state_text rule_type : string) (msg : option string) :
  state_recognized state_text = true →
  accepted (payload ident state_text rule_type msg) ↔ identifier_error rule_type ident = None.
Proof.
  intros Hstate. unfold accepted, payload, GetRowData.
  destruct msg as [m|]; simpl;
    (destruct (identifier_error rule_type ident) as [reason|];
     [ split; [intros [row [=]] | discriminate]
     | rewrite Hstate; simpl; split; [done | intros _; eauto] ]).
Qed.

(** A payload that [GetRowData] turns down leaves [insert] without effect. *)
Lemma insert_rejected (iteration : gmap N string → list (N * string))
    (host : Host) (db : RulesDatabase) (document : Document) (st : RulesState)
    (status : Status) (row : Row) :
  GetRowData document = Some (status, row) →
  ok status = false →
  insert iteration host db document st = Some (failure, st, []).
Proof. intros H Hok. unfold insert. rewrite H; simpl. rewrite Hok. reflexivity. Qed.

(** C6 as stated fails: a certificate identifier that is no 64-character
    digest passes the validation, and the command is run with it. *)
Lemma insert_short_certificate_accepted :
  ¬ is_digest "abc"
  ∧ insert map_to_list obliging_host empty_db
      (payload "abc" "allow" "certificate" None) (no_rule_state 0)
    = Some (inserted 0,
            {| d := {| rowid_to_pkey := {[ 0%N := "abc_certificate" ]};
                       rule_list := {[ "abc_certificate" :=
                                        {| type := Certificate; state := Whitelist;
                                           identifier := "abc";
                                           custom_message := EmptyString |} ]} |};
               generator := 1 |},
            [Exec kSantactlPath ["rule"; "--allow"; "--identifier"; "abc"; "--certificate"]]).
Proof.
  split.
  - intros [Hlen _]. discriminate Hlen.
  - reflexivity.
Qed.

(** A payload of string columns is either accepted or answered with a
    failure status: the validation never breaks down on it. *)
Lemma GetRowData_payload_answer (ident state_text rule_type : string) (msg : option string) :
  accepted (payload ident state_text rule_type msg)
  ∨ ∃ status row, GetRowData (payload ident state_text rule_type msg) = Some (status, row)
                  ∧ ok status = false.
Proof.
  unfold accepted, payload, GetRowData.
  destruct msg as [m|]; simpl;
    (destruct (identifier_error rule_type ident) as [reason|];
     [ right; by eexists _, _
     | destruct (state_recognized state_text); simpl;
       [ left; by eexists | right; by eexists _, _ ] ]).
Qed.

Lemma GetRowData_malformed (document : Document) :
  malformed document →
  ∃ status row, GetRowData document = Some (status, row) ∧ ok status = false.
Proof.
  destruct document as [| |elems]; [by eexists _, _ | by eexists _, _ |].
  destruct elems as [|d0 [|d1 [|d2 [|d3 [|d4 rest]]]]]; simpl;
    try (intros _; by eexists _, _).
  intros Hnull.
  destruct (IsNull d0); [by eexists _, _|].
  destruct (IsNull d1); [by eexists _, _|].
  destruct (IsNull d2); [by eexists _, _|].
  by destruct Hnull as [|[|]].
Qed.

(** C6, amended.  The validation of the identifier depends on the type: a
    binary identifier must be a 64-character lowercase hexadecimal digest, a
    certificate identifier must consist of lowercase hexadecimal characters
    (of any number), a signingid identifier must hold a colon, a teamid
    identifier must not be empty.  A payload of string columns that is not
    accepted, whatever its type and state, and a malformed request are
    answered with the failure status, with the state kept and before any
    command is run; so is every payload for which [GetRowData] answers
    with a failure status. *)
Theorem insert_validation (iteration : gmap N string → list (N * string))
    (host : Host) (db : RulesDatabase) (st : RulesState)
    (ident state_text : string) (msg : option string) :
  state_recognized state_text = true →
  (accepted (payload ident state_text "binary" msg) ↔ is_digest ident)
  ∧ (accepted (payload ident state_text "certificate" msg)
     ↔ Forall lower_hex (CStr.chars ident))
  ∧ (accepted (payload ident state_text "signingid" msg) ↔ has_colon ident)
  ∧ (accepted (payload ident state_text "teamid" msg) ↔ ident ≠ EmptyString)
  ∧ (∀ document status row,
       GetRowData document = Some (status, row) → ok status = false →
       insert iteration host db document st = Some (failure, st, []))
  ∧ (∀ ident' state_text' rule_type msg',
       ¬ accepted (payload ident' state_text' rule_type msg') →
       insert iteration host db (payload ident' state_text' rule_type msg') st
       = Some (failure, st, []))
  ∧ (∀ document, malformed document →
       insert iteration host db document st = Some (failure, st, [])).
Proof.
  intros Hstate.
  split; [|split; [|split; [|split; [|split; [|split]]]]];
    try rewrite (GetRowData_payload _ _ _ _ Hstate).
  - apply identifier_error_binary.
  - apply identifier_error_certificate.
  - apply identifier_error_signingid.
  - apply identifier_error_teamid.
  - intros document status row. apply insert_rejected.
  - intros ident' state_text' rule_type msg' Hnot.
    destruct (GetRowData_payload_answer ident' state_text' rule_type msg')
      as [Hacc|(status & row & Hrow & Hok)]; [done|].
    by apply (insert_rejected _ _ _ _ _ status row).
  - intros document Hbad.
    destruct (GetRowData_malformed document Hbad) as (status & row & Hrow & Hok).
    by apply (insert_rejected _ _ _ _ _ status row).
Qed.

Lemma insert_validation_witness :
  ¬ is_digest "abc"
  ∧ insert map_to_list obliging_host empty_db
      (payload "abc" "allow" "binary" None) (no_rule_state 0)
    = Some (failure, no_rule_state 0, [])
  ∧ insert map_to_list obliging_host empty_db
      (payload EmptyString "allow" "teamid" None) (no_rule_state 0)
    = Some (failure, no_rule_state 0, [])
  ∧ insert map_to_list obliging_host empty_db
      (JArray [JNull; JString "allow"; JString "binary"; JNull]) (no_rule_state 0)
    = Some (failure, no_rule_state 0, []).
Proof.
  destruct (insert_validation map_to_list obliging_host empty_db (no_rule_state 0)
              "abc" "allow" None eq_refl) as (Hbinary & _ & _ & _ & _ & Hreject & Hbad).
  destruct (insert_validation map_to_list obliging_host empty_db (no_rule_state 0)
              EmptyString "allow" None eq_refl) as (_ & _ & _ & Hteam & _).
  assert (¬ is_digest "abc") as Hshort by (intros [Hlen _]; discriminate Hlen).
  split; [exact Hshort|]. split; [|split].
  - apply Hreject. intros Hacc. apply Hshort, Hbinary, Hacc.
  - apply Hreject. intros Hacc. by apply Hteam in Hacc.
  - apply Hbad. left. reflexivity.
Defined.

(** ** Log ingestion *)

Lemma prefix_length (a b : string) :
  String.prefix a b = true → (String.length a ≤ String.length b)%nat.
Proof.
  revert b. induction a as [|c a IH]; intros b; [simpl; lia|].
  destruct b as [|c' b]; [discriminate|].
  cbn [String.prefix String.length]. destruct (ascii_dec c c'); [|discriminate].
  intros Hp. apply IH in Hp. lia.
Qed.

(** A match of [find] lies at or after the start position and inside the
    text. *)
Lemma find_bounds (needle : string) (pos : nat) (s : string) (m : nat) :
  CStr.find needle pos s = Some m →
  (pos ≤ m ∧ m + String.length needle ≤ String.length s)%nat.
Proof.
  unfold CStr.find. revert pos m.
  induction s as [|c s IH]; intros pos m; cbn [index].
  - destruct pos; [|discriminate]. destruct needle; [|discriminate].
    intros [= <-]. simpl. lia.
  - destruct pos as [|pos].
    + destruct (String.prefix needle (String c s)) eqn:Hp.
      * intros [= <-]. apply prefix_length in Hp. lia.
      * destruct (index 0 needle s) as [m'|] eqn:Hm; [|discriminate].
        intros [= <-]. apply IH in Hm. simpl. lia.
    + destruct (index pos needle s) as [m'|] eqn:Hm; [|discriminate].
      intros [= <-]. apply IH in Hm. simpl. lia.
Qed.

Lemma first_not_of_from_ge (set : list ascii) (i : nat) (l : list ascii) (m : nat) :
  CStr.first_not_of_from set i l = Some m → (i ≤ m)%nat.
Proof.
  revert i. induction l as [|c l IH]; intros i; simpl; [discriminate|].
  case_bool_decide.
  - intros Hm. apply IH in Hm. lia.
  - intros [= <-]. lia.
Qed.

(** The rounds [extractValues] allows are never used up: with any number of
    further rounds the loop yields the same fields. *)
Lemma extract_pairs_rounds (rounds extra : nat) (line : string) (key_pos : nat)
    (values : gmap string string) :
  (String.length line ≤ key_pos + rounds)%nat →
  extract_pairs (rounds + extra) line (Some key_pos) values
  = extract_pairs rounds line (Some key_pos) values.
Proof.
  revert key_pos values.
  induction rounds as [|rounds IH]; intros key_pos values Hlen.
  - destruct extra as [|extra]; [reflexivity|]. simpl.
    destruct (CStr.find "=" key_pos line) as [key_end|] eqn:Hfind; [|reflexivity].
    apply find_bounds in Hfind. simpl in Hfind. lia.
  - cbn [Nat.add extract_pairs].
    destruct (CStr.find "=" key_pos line) as [key_end|] eqn:Hfind; [|reflexivity].
    destruct (CStr.find_first_not_of "=" key_end line) as [val_pos|] eqn:Hval; [|reflexivity].
    destruct (CStr.find "|" val_pos line) as [val_end|] eqn:Hend; cbn [fmap option_fmap option_map].
    + apply IH.
      apply find_bounds in Hfind, Hend. apply first_not_of_from_ge in Hval. lia.
    + by destruct rounds, extra.
Qed.

Lemma extractValues_rounds (extra : nat) (line : string) (key_pos : nat)
    (values : gmap string string) :
  extract_pairs (String.length line + extra) line (Some key_pos) values
  = extract_pairs (String.length line) line (Some key_pos) values.
Proof. apply extract_pairs_rounds. lia. Qed.

Lemma scrapeStream_spec (incoming : list string) (response : LogEntries)
    (save_to_archive : bool) (decision : SantaDecisionType) (lines : list string) :
  scrapeStream incoming response save_to_archive decision lines
  = ((response ++ events decision incoming)%list,
     if save_to_archive then (lines ++ selected_lines decision incoming)%list else lines).
Proof.
  revert response lines.
  induction incoming as [|line rest IH]; intros response lines; simpl.
  - rewrite app_nil_r. destruct save_to_archive; [rewrite app_nil_r|]; reflexivity.
  - unfold events, selected_lines in *.
    destruct (line_selected decision line) eqn:Hsel; simpl.
    + rewrite IH, filter_cons_True by done. simpl.
      rewrite <- app_assoc. destruct save_to_archive; [rewrite <- app_assoc|]; reflexivity.
    + rewrite IH, filter_cons_False by (rewrite Hsel; discriminate). reflexivity.
Qed.

Lemma decoded_archives_drop (files : list GzFile) (i : nat) :
  decoded_archives (drop i files)
  = match nth i files GzMissing with
    | GzText lines => lines :: decoded_archives (drop (S i) files)
    | _ => []
    end.
Proof.
  revert i. induction files as [|file files IH]; intros [|i]; simpl; try reflexivity.
  apply IH.
Qed.

(** Given enough rounds, the rescan from index [i] reads exactly the
    archives up to the first missing or damaged one, and stops there. *)
Lemma rescan_spec (rounds : nat) (fs : LogFiles) (i : nat) (response : LogEntries)
    (decision : SantaDecisionType) (cache : ArchiveCache) :
  i ≤ List.length (archives fs) < i + rounds →
  let decoded := decoded_archives (drop i (archives fs)) in
  rescan rounds fs i response decision cache
  = ((response ++ concat (map (events decision) decoded))%list,
     {| archived_lines :=
          (archived_lines cache ++ concat (map (selected_lines decision) decoded))%list;
        next_oldest_archive := i + List.length decoded |}).
Proof.
  revert i response cache.
  induction rounds as [|rounds IH]; intros i response cache Hrounds decoded.
  - exfalso. lia.
  - subst decoded. rewrite decoded_archives_drop. simpl. unfold archive_file.
    destruct (nth i (archives fs) GzMissing) as [| |lines] eqn:Hfile; simpl.
    + rewrite !app_nil_r, Nat.add_0_r. reflexivity.
    + rewrite !app_nil_r, Nat.add_0_r. reflexivity.
    + rewrite scrapeStream_spec.
      assert (i < List.length (archives fs)) as Hi.
      { destruct (Nat.lt_ge_cases i (List.length (archives fs))) as [|Hge]; [done|].
        rewrite nth_overflow in Hfile by done. discriminate. }
      rewrite IH by lia. simpl.
      rewrite <- !app_assoc, Nat.add_succ_r. reflexivity.
Qed.

(** Without a new archive the cached lines are replayed as they are. *)
Lemma scrapeSantaLog_replay (fs : LogFiles) (decision : SantaDecisionType)
    (cache : ArchiveCache) :
  newArchiveFileExists fs cache = false →
  scrapeSantaLog fs decision cache
  = (true, (live_events fs decision ++ map entry_of_line (archived_lines cache))%list, cache).
Proof.
  intros H. unfold scrapeSantaLog. rewrite H. simpl.
  unfold processArchivedLines, scrapeCurrentLog, live_events.
  destruct (live_log fs); simpl; [rewrite scrapeStream_spec|]; reflexivity.
Qed.

(** C4.  When the archive at index [next_oldest_archive] can be opened, the
    cache is dropped and the archives are read again from index 0 up to the
    first that is missing or damaged; the result is the events of the live
    log followed by those of each archive read, in order. *)
Theorem scrapeSantaLog_rescan (fs : LogFiles) (decision : SantaDecisionType)
    (cache : ArchiveCache) :
  archive_file fs (next_oldest_archive cache) ≠ GzMissing →
  let decoded := decoded_archives (archives fs) in
  scrapeSantaLog fs decision cache
  = (true,
     (live_events fs decision ++ concat (map (events decision) decoded))%list,
     {| archived_lines := concat (map (selected_lines decision) decoded);
        next_oldest_archive := List.length decoded |}).
Proof.
  intros Hnew decoded. unfold scrapeSantaLog.
  assert (newArchiveFileExists fs cache = true) as ->.
  { unfold newArchiveFileExists. by destruct (archive_file fs _). }
  cbn [negb].
  rewrite rescan_spec by (simpl; lia).
  rewrite drop_0. fold decoded. simpl.
  unfold scrapeCurrentLog, live_events.
  destruct (live_log fs); simpl; [rewrite scrapeStream_spec|]; reflexivity.
Qed.

Lemma scrapeSantaLog_rescan_witness :
  scrapeSantaLog rotated_logs kDenied fresh_cache
  = (true,
     (live_events rotated_logs kDenied
      ++ concat (map (events kDenied) (decoded_archives (archives rotated_logs))))%list,
     {| archived_lines :=
          concat (map (selected_lines kDenied) (decoded_archives (archives rotated_logs)));
        next_oldest_archive := List.length (decoded_archives (archives rotated_logs)) |}).
Proof.
  apply (scrapeSantaLog_rescan rotated_logs kDenied fresh_cache).
  simpl. discriminate.
Defined.

(** C2.  A scan keeps only the lines of the class it was asked for, and the
    replay does not filter: after a read of the allowed class, a read of the
    denied class returns the allowed event of the archive and misses the
    denied one. *)
Theorem archive_replay_ignores_class :
  scrapeSantaLog rotated_logs kAllowed fresh_cache
  = (true, [allow_entry], {| archived_lines := [allow_line]; next_oldest_archive := 1 |})
  ∧ scrapeSantaLog rotated_logs kDenied
      {| archived_lines := [allow_line]; next_oldest_archive := 1 |}
    = (true, [allow_entry], {| archived_lines := [allow_line]; next_oldest_archive := 1 |})
  ∧ events kDenied (concat (decoded_archives (archives rotated_logs))) = [deny_entry].
Proof. repeat split; vm_compute; reflexivity. Qed.

(** ** Rule identity map *)

Lemma unordered_insert_lookup `{Countable K} {V} (k k' : K) (v v' : V) (m : gmap K V) :
  unordered_insert k v m !! k' = Some v' →
  m !! k' = Some v' ∨ (k' = k ∧ v' = v ∧ m !! k = None).
Proof.
  unfold unordered_insert. destruct (m !! k) eqn:Hk; [by left|].
  destruct (decide (k = k')) as [<-|Hne].
  - rewrite lookup_insert_eq. intros [= <-]. by right.
  - rewrite lookup_insert_ne by done. by left.
Qed.

Lemma unordered_insert_subseteq `{Countable K} {V} (k : K) (v : V) (m : gmap K V) :
  m ⊆ unordered_insert k v m.
Proof.
  unfold unordered_insert. destruct (m !! k) eqn:Hk; [done|].
  by apply insert_subseteq.
Qed.

Lemma unordered_insert_fresh `{Countable K} {V} (k : K) (v : V) (m : gmap K V) :
  m !! k = None → unordered_insert k v m !! k = Some v.
Proof. intros Hk. unfold unordered_insert. rewrite Hk. apply lookup_insert_eq. Qed.

Lemma unordered_insert_present `{Countable K} {V} (k : K) (v w : V) (m : gmap K V) :
  m !! k = Some w → unordered_insert k v m = m.
Proof. intros Hk. unfold unordered_insert. by rewrite Hk. Qed.

Lemma generateRowID_no_wrap (g : N) :
  (g + 1 < RowID_modulus)%N → generateRowID g = (g, (g + 1)%N).
Proof. intros Hg. unfold generateRowID. by rewrite N.mod_small. Qed.

Section RuleIdentity.

Variable iteration : gmap N string → list (N * string).
Hypothesis iteration_perm : ∀ m, iteration m ≡ₚ map_to_list m.

Lemma find_rowid_Some (old : gmap N string) (pk : string) (r : N) :
  find_rowid iteration old pk = Some r → old !! r = Some pk.
Proof.
  unfold find_rowid.
  destruct (find _ _) as [[r' pk']|] eqn:Hfind; [|discriminate].
  intros [= <-]. apply find_some in Hfind as [Hin Hpk].
  apply bool_decide_eq_true in Hpk. simpl in Hpk. subst pk'.
  apply list_elem_of_In in Hin. rewrite iteration_perm in Hin.
  by apply elem_of_map_to_list in Hin.
Qed.

Lemma find_rowid_None (old : gmap N string) (pk : string) :
  find_rowid iteration old pk = None → ¬ mapped old pk.
Proof.
  unfold find_rowid.
  destruct (find _ _) as [p|] eqn:Hfind; [discriminate|].
  intros _ [r Hr].
  apply elem_of_map_to_list in Hr. rewrite <- iteration_perm in Hr.
  apply list_elem_of_In in Hr.
  apply (find_none _ _ Hfind) in Hr. simpl in Hr.
  by apply bool_decide_eq_false in Hr.
Qed.

Lemma find_rowid_mapped (old : gmap N string) (pk : string) :
  mapped old pk → ∃ r, find_rowid iteration old pk = Some r ∧ old !! r = Some pk.
Proof.
  intros Hm. destruct (find_rowid iteration old pk) as [r|] eqn:Hfind.
  - exists r. split; [done|]. by apply find_rowid_Some.
  - by apply find_rowid_None in Hfind.
Qed.

Lemma updateRules_loop_invariant (old : gmap N string) (g0 : N)
    (rules : RuleEntries) (st : RulesState) :
  rowids_below old g0 →
  (g0 ≤ generator st)%N →
  (generator st + N.of_nat (List.length rules) < RowID_modulus)%N →
  tracked iteration old g0 (rowid_to_pkey (d st)) (generator st) →
  let st' := updateRules_loop iteration old rules st in
  tracked iteration old g0 (rowid_to_pkey (d st')) (generator st')
  ∧ (generator st ≤ generator st')%N
  ∧ (∀ r pk, rowid_to_pkey (d st') !! r = Some pk →
       rowid_to_pkey (d st) !! r = Some pk ∨ pk ∈ keys_of rules)
  ∧ (∀ pk, pk ∈ keys_of rules → mapped (rowid_to_pkey (d st')) pk)
  ∧ rowid_to_pkey (d st) ⊆ rowid_to_pkey (d st').
Proof.
  intros Hold. revert st.
  induction rules as [|rule rest IH]; intros st Hg0 Hroom Htracked; simpl.
  - repeat split; try done.
    + by left.
    + intros pk Hpk. inversion Hpk.
  - set (pk0 := generatePrimaryKey_rule rule).
    set (m := rowid_to_pkey (d st)) in *.
    change (List.length (rule :: rest)) with (S (List.length rest)) in Hroom.
    rewrite Nat2N.inj_succ in Hroom.
    destruct (find_rowid iteration old pk0) as [r0|] eqn:Hfind.
    + (* the key keeps the row found in the old mapping *)
      edestruct (IH {| d := {| rowid_to_pkey := unordered_insert r0 pk0 m;
                               rule_list := unordered_insert pk0 rule (rule_list (d st)) |};
                       generator := generator st |})
        as (Ht & Hg & Hfrom & Hall & Hsub); simpl; [done|lia| |].
      { intros r pk [Hm|(-> & -> & _)]%unordered_insert_lookup; [by apply Htracked|by left]. }
      assert (unordered_insert r0 pk0 m !! r0 = Some pk0) as Hr0.
      { destruct (m !! r0) as [pk'|] eqn:Hm; [|by apply unordered_insert_fresh].
        rewrite (unordered_insert_present _ _ _ _ Hm), Hm.
        apply find_rowid_Some in Hfind as Hold0.
        destruct (Htracked _ _ Hm) as [Hf|[_ Hrange]].
        - apply find_rowid_Some in Hf. congruence.
        - apply Hold in Hold0. lia. }
      repeat split; try done.
      * intros r pk Hr. destruct (Hfrom _ _ Hr) as [Hin|Hin].
        -- apply unordered_insert_lookup in Hin as [Hm|(-> & -> & _)]; [by left|].
           right. constructor.
        -- right. by constructor.
      * intros pk [->|Hpk]%elem_of_cons; [|by apply Hall].
        exists r0. eapply lookup_weaken; [exact Hr0|exact Hsub].
      * etrans; [|exact Hsub]. apply unordered_insert_subseteq.
    + (* the key is new: the generator issues a row *)
      rewrite generateRowID_no_wrap by lia.
      assert (m !! generator st = None) as Hfree.
      { destruct (m !! generator st) as [pk'|] eqn:Hm; [|done].
        destruct (Htracked _ _ Hm) as [Hf|[_ Hrange]]; [|lia].
        apply find_rowid_Some, Hold in Hf. lia. }
      edestruct (IH {| d := {| rowid_to_pkey := unordered_insert (generator st) pk0 m;
                               rule_list := unordered_insert pk0 rule (rule_list (d st)) |};
                       generator := (generator st + 1)%N |})
        as (Ht & Hg & Hfrom & Hall & Hsub); simpl; [lia|lia| |].
      { intros r pk [Hm|(-> & -> & _)]%unordered_insert_lookup.
        - destruct (Htracked _ _ Hm) as [Hf|[Hf Hrange]]; [by left|right].
          split; [done|lia].
        - right. split; [done|lia]. }
      simpl in Hg. repeat split; try done.
      * lia.
      * intros r pk Hr. destruct (Hfrom _ _ Hr) as [Hin|Hin].
        -- apply unordered_insert_lookup in Hin as [Hm|(-> & -> & _)]; [by left|].
           right. constructor.
        -- right. by constructor.
      * intros pk [->|Hpk]%elem_of_cons; [|by apply Hall].
        exists (generator st).
        eapply lookup_weaken; [exact (unordered_insert_fresh _ pk0 _ Hfree)|exact Hsub].
      * etrans; [|exact Hsub]. apply unordered_insert_subseteq.
Qed.

Lemma tracked_found (old : gmap N string) (g0 g : N) (m : gmap N string)
    (pk0 : string) (r0 : N) :
  tracked iteration old g0 m g →
  find_rowid iteration old pk0 = Some r0 →
  tracked iteration old g0 (unordered_insert r0 pk0 m) g.
Proof.
  intros Htracked Hfind r pk [Hm|(-> & -> & _)]%unordered_insert_lookup.
  - by apply Htracked.
  - by left.
Qed.

Lemma tracked_minted (old : gmap N string) (g0 g : N) (m : gmap N string) (pk0 : string) :
  tracked iteration old g0 m g →
  find_rowid iteration old pk0 = None →
  (g0 ≤ g)%N →
  tracked iteration old g0 (unordered_insert g pk0 m) (g + 1).
Proof.
  intros Htracked Hfind Hg r pk [Hm|(-> & -> & _)]%unordered_insert_lookup.
  - destruct (Htracked _ _ Hm) as [Hf|[Hf Hrange]]; [by left|right].
    split; [done|lia].
  - right. split; [done|lia].
Qed.

(** The loop only adds entries. *)
Lemma updateRules_loop_grows (old : gmap N string) (rules : RuleEntries) (st : RulesState) :
  rowid_to_pkey (d st) ⊆ rowid_to_pkey (d (updateRules_loop iteration old rules st)).
Proof.
  revert st. induction rules as [|rule rest IH]; intros st; simpl; [done|].
  destruct (match find_rowid iteration old (generatePrimaryKey_rule rule) with
            | Some rowid => (rowid, generator st)
            | None => generateRowID (generator st)
            end) as [rowid generator'].
  etrans; [|apply IH]. apply unordered_insert_subseteq.
Qed.

(** The rule table does not depend on the row identifiers. *)
Lemma updateRules_loop_rule_list (old : gmap N string) (rules : RuleEntries) (st : RulesState) :
  rule_list (d (updateRules_loop iteration old rules st))
  = collected_rule_list rules (rule_list (d st)).
Proof.
  revert st. induction rules as [|rule rest IH]; intros st; simpl; [done|].
  destruct (match find_rowid iteration old (generatePrimaryKey_rule rule) with
            | Some rowid => (rowid, generator st)
            | None => generateRowID (generator st)
            end) as [rowid generator'].
  by rewrite IH.
Qed.

(** When no unknown key is collected twice, no key ends up with two row
    identifiers. *)
Lemma updateRules_loop_single (old : gmap N string) (g0 : N)
    (rules : RuleEntries) (st : RulesState) :
  rowids_below old g0 →
  (g0 ≤ generator st)%N →
  (generator st + N.of_nat (List.length rules) < RowID_modulus)%N →
  tracked iteration old g0 (rowid_to_pkey (d st)) (generator st) →
  repeats_mapped old (keys_of rules) →
  (∀ pk, pk ∈ keys_of rules → find_rowid iteration old pk = None →
     ¬ mapped (rowid_to_pkey (d st)) pk) →
  single_rowid (rowid_to_pkey (d st)) →
  single_rowid (rowid_to_pkey (d (updateRules_loop iteration old rules st))).
Proof.
  intros Hold. revert st.
  induction rules as [|rule rest IH];
    intros st Hg0 Hroom Htracked Hrep Hnew Hsingle; simpl; [done|].
  set (pk0 := generatePrimaryKey_rule rule).
  set (m := rowid_to_pkey (d st)) in *.
  change (List.length (rule :: rest)) with (S (List.length rest)) in Hroom.
  rewrite Nat2N.inj_succ in Hroom.
  destruct Hrep as [Hagain Hrep]. fold (keys_of rest) in Hagain, Hrep.
  destruct (find_rowid iteration old pk0) as [r0|] eqn:Hfind.
  - apply IH; simpl; [done|lia|by apply tracked_found|done| |].
    + intros pk Hpk Hnone [r [Hm|(-> & -> & _)]%unordered_insert_lookup].
      * apply (Hnew pk); [by constructor|done|by exists r].
      * congruence.
    + intros pk r1 r2 [H1|(-> & Hpk1 & _)]%unordered_insert_lookup
                      [H2|(-> & Hpk2 & _)]%unordered_insert_lookup; subst.
      * by eapply Hsingle.
      * destruct (Htracked _ _ H1) as [Hf|[Hf _]]; congruence.
      * destruct (Htracked _ _ H2) as [Hf|[Hf _]]; congruence.
      * done.
  - rewrite generateRowID_no_wrap by lia.
    assert (¬ mapped m pk0) as Hfresh by (apply Hnew; [constructor|done]).
    apply IH; simpl; [lia|lia|by apply tracked_minted|done| |].
    + intros pk Hpk Hnone [r [Hm|(-> & -> & _)]%unordered_insert_lookup].
      * apply (Hnew pk); [by constructor|done|by exists r].
      * by apply (find_rowid_None old pk0), Hagain.
    + intros pk r1 r2 [H1|(-> & Hpk1 & _)]%unordered_insert_lookup
                      [H2|(-> & Hpk2 & _)]%unordered_insert_lookup; subst.
      * by eapply Hsingle.
      * destruct Hfresh. by exists r1.
      * destruct Hfresh. by exists r2.
      * done.
Qed.

(** A refresh over a mapping that knows every collected key issues no row
    identifier and builds a part of that mapping. *)
Lemma updateRules_loop_known (m1 : gmap N string) (rules : RuleEntries) (st : RulesState) :
  (∀ pk, pk ∈ keys_of rules → mapped m1 pk) →
  rowid_to_pkey (d st) ⊆ m1 →
  let st' := updateRules_loop iteration m1 rules st in
  generator st' = generator st
  ∧ rowid_to_pkey (d st') ⊆ m1
  ∧ (∀ pk, pk ∈ keys_of rules → mapped (rowid_to_pkey (d st')) pk).
Proof.
  revert st. induction rules as [|rule rest IH]; intros st Hknown Hsub; simpl.
  - repeat split; [done|]. intros pk Hpk. inversion Hpk.
  - set (pk0 := generatePrimaryKey_rule rule).
    destruct (find_rowid_mapped m1 pk0) as (r0 & -> & Hr0); [apply Hknown; constructor|].
    assert (unordered_insert r0 pk0 (rowid_to_pkey (d st)) ⊆ m1) as Hsub1.
    { unfold unordered_insert. destruct (rowid_to_pkey (d st) !! r0); [done|].
      by apply insert_subseteq_l. }
    assert (unordered_insert r0 pk0 (rowid_to_pkey (d st)) !! r0 = Some pk0) as Hin.
    { destruct (rowid_to_pkey (d st) !! r0) as [pk'|] eqn:Hm;
        [|by apply unordered_insert_fresh].
      rewrite (unordered_insert_present _ _ _ _ Hm), Hm.
      apply (lookup_weaken _ _ _ _ Hm) in Hsub. congruence. }
    set (st1 := {| d := {| rowid_to_pkey := unordered_insert r0 pk0 (rowid_to_pkey (d st));
                           rule_list := unordered_insert pk0 rule (rule_list (d st)) |};
                   generator := generator st |}).
    destruct (IH st1) as (Hg & Hsub' & Hall); [|exact Hsub1|].
    { intros pk Hpk. apply Hknown. by constructor. }
    repeat split; [done|done|].
    intros pk [->|Hpk]%elem_of_cons; [|by apply Hall].
    exists r0.
    exact (lookup_weaken _ _ _ _ Hin (updateRules_loop_grows m1 rest st1)).
Qed.

Lemma tracked_empty (old : gmap N string) (g0 g : N) : tracked iteration old g0 ∅ g.
Proof. intros r pk Hr. by rewrite lookup_empty in Hr. Qed.

(** A refresh keeps the row identifiers below the generator. *)
Lemma updateRules_rowids_below (db : RulesDatabase) (rules : RuleEntries)
    (st st' : RulesState) (status : Status) :
  collectSantaRules db = Some (true, rules) →
  rowids_below (rowid_to_pkey (d st)) (generator st) →
  (generator st + N.of_nat (List.length rules) < RowID_modulus)%N →
  updateRules iteration db st = Some (status, st') →
  rowids_below (rowid_to_pkey (d st')) (generator st').
Proof.
  intros Hdb Hold Hroom. unfold updateRules. rewrite Hdb; simpl. intros [= _ <-].
  destruct (updateRules_loop_invariant (rowid_to_pkey (d st)) (generator st) rules
              {| d := {| rowid_to_pkey := ∅; rule_list := ∅ |}; generator := generator st |})
    as (Ht & Hg & _); simpl in *; [done|lia|done|apply tracked_empty|].
  intros r pk Hr. destruct (Ht _ _ Hr) as [Hf|[_ Hrange]]; [|lia].
  apply find_rowid_Some, Hold in Hf. lia.
Qed.

(** C1, amended.  A successful refresh, in a state whose row identifiers were issued
    by the generator and with room left below [2^32]: a key of the previous
    mapping that is collected again keeps its row identifier, a key that
    appears is given identifiers the generator issues during the refresh,
    and a key that is not collected has no entry. *)
Theorem updateRules_identity (db : RulesDatabase) (rules : RuleEntries) (st : RulesState) :
  collectSantaRules db = Some (true, rules) →
  rowids_below (rowid_to_pkey (d st)) (generator st) →
  (generator st + N.of_nat (List.length rules) < RowID_modulus)%N →
  ∃ st', updateRules iteration db st = Some (OK, st')
    ∧ (generator st ≤ generator st')%N
    ∧ refresh_keeps (rowid_to_pkey (d st)) (rowid_to_pkey (d st')) rules
    ∧ refresh_mints (rowid_to_pkey (d st)) (rowid_to_pkey (d st')) rules
        (generator st) (generator st')
    ∧ refresh_releases (rowid_to_pkey (d st')) rules.
Proof.
  intros Hdb Hold Hroom. unfold updateRules. rewrite Hdb; simpl.
  eexists; split; [reflexivity|].
  set (old := rowid_to_pkey (d st)) in *.
  destruct (updateRules_loop_invariant old (generator st) rules
              {| d := {| rowid_to_pkey := ∅; rule_list := ∅ |}; generator := generator st |})
    as (Ht & Hg & Hfrom & Hall & _); simpl in *; [done|lia|done|apply tracked_empty|].
  split; [done|]. split; [|split].
  - intros pk Hm Hpk.
    destruct (find_rowid_mapped old pk Hm) as (r0 & Hfind & Hr0).
    assert (∀ r, rowid_to_pkey (d (updateRules_loop iteration old rules
              {| d := {| rowid_to_pkey := ∅; rule_list := ∅ |};
                 generator := generator st |})) !! r = Some pk → r = r0) as Honly.
    { intros r Hr. destruct (Ht _ _ Hr) as [Hf|[Hf _]]; congruence. }
    exists r0. split; [done|]. split; [|done].
    destruct (Hall _ Hpk) as [r Hr]. by rewrite <- (Honly _ Hr).
  - intros pk Hm Hpk. split; [by apply Hall|].
    intros r Hr. destruct (Ht _ _ Hr) as [Hf|[_ Hrange]].
    + destruct Hm. exists r. by apply find_rowid_Some.
    + split; [done|].
      destruct (old !! r) as [pk'|] eqn:Hr'; [|done].
      apply Hold in Hr'. lia.
  - intros pk Hpk [r Hr]. destruct (Hfrom _ _ Hr) as [He|Hin]; [|done].
    by rewrite lookup_empty in He.
Qed.

(** C3, amended.  When the state is as for C1 and no key unknown to the
    mapping is collected more than once, a second refresh over the same
    rule sequence changes nothing: both tables and the generator are what
    the first refresh left. *)
Theorem updateRules_twice (db1 db2 : RulesDatabase) (rules : RuleEntries) (st : RulesState) :
  collectSantaRules db1 = Some (true, rules) →
  collectSantaRules db2 = Some (true, rules) →
  rowids_below (rowid_to_pkey (d st)) (generator st) →
  (generator st + N.of_nat (List.length rules) < RowID_modulus)%N →
  repeats_mapped (rowid_to_pkey (d st)) (keys_of rules) →
  ∃ st1, updateRules iteration db1 st = Some (OK, st1)
    ∧ updateRules iteration db2 st1 = Some (OK, st1).
Proof.
  intros Hdb1 Hdb2 Hold Hroom Hrep. unfold updateRules. rewrite Hdb1, Hdb2; simpl.
  eexists; split; [reflexivity|]. do 2 f_equal.
  set (old := rowid_to_pkey (d st)) in *.
  set (init := {| d := {| rowid_to_pkey := ∅; rule_list := ∅ |}; generator := generator st |}).
  set (st1 := updateRules_loop iteration old rules init).
  destruct (updateRules_loop_invariant old (generator st) rules init)
    as (Ht & Hg & Hfrom & Hall & _); simpl; [done|lia|done|apply tracked_empty|].
  assert (single_rowid (rowid_to_pkey (d st1))) as Hsingle.
  { apply (updateRules_loop_single old (generator st)); simpl;
      [done|lia|done|apply tracked_empty|done| |].
    - intros pk _ _ [r Hr]. by rewrite lookup_empty in Hr.
    - intros pk r1 r2 Hr. by rewrite lookup_empty in Hr. }
  fold st1 in Ht, Hg, Hfrom, Hall.
  set (init2 := {| d := {| rowid_to_pkey := ∅; rule_list := ∅ |}; generator := generator st1 |}).
  destruct (updateRules_loop_known (rowid_to_pkey (d st1)) rules init2)
    as (Hg2 & Hsub2 & Hall2); [done|apply map_empty_subseteq|].
  set (st2 := updateRules_loop iteration (rowid_to_pkey (d st1)) rules init2) in *.
  assert (rowid_to_pkey (d st2) = rowid_to_pkey (d st1)) as Hmap.
  { apply (anti_symm (⊆)); [done|].
    apply map_subseteq_spec. intros r pk Hr.
    destruct (Hfrom _ _ Hr) as [He|Hin];
      [unfold init in He; simpl in He; by rewrite lookup_empty in He|].
    destruct (Hall2 _ Hin) as [r' Hr'].
    rewrite (Hsingle pk r r' Hr); [done|].
    by apply (lookup_weaken _ _ _ _ Hr'). }
  assert (rule_list (d st2) = rule_list (d st1)) as Hrules.
  { unfold st2, st1. by rewrite !updateRules_loop_rule_list. }
  simpl in Hg2.
  destruct st2 as [[m2 l2] g2], st1 as [[m1 l1] g1]; simpl in *. by subst.
Qed.

(** The generator moves by at most one per collected rule. *)
Lemma updateRules_loop_generator (old : gmap N string) (rules : RuleEntries) (st : RulesState) :
  (generator st + N.of_nat (List.length rules) < RowID_modulus)%N →
  (generator (updateRules_loop iteration old rules st)
   ≤ generator st + N.of_nat (List.length rules))%N.
Proof.
  revert st. induction rules as [|rule rest IH]; intros st Hroom; [simpl; lia|].
  change (List.length (rule :: rest)) with (S (List.length rest)) in *.
  rewrite Nat2N.inj_succ in *. cbn [updateRules_loop].
  destruct (find_rowid iteration old (generatePrimaryKey_rule rule)).
  - etrans; [apply IH|]; simpl; lia.
  - rewrite generateRowID_no_wrap by lia.
    etrans; [apply IH|]; simpl; lia.
Qed.

Lemma updateRules_issued (db : RulesDatabase) (st st' : RulesState) (status : Status) :
  (∀ collected rules, collectSantaRules db = Some (collected, rules) →
     (generator st + N.of_nat (List.length rules) + 1 < RowID_modulus)%N) →
  rowids_below (rowid_to_pkey (d st)) (generator st) →
  updateRules iteration db st = Some (status, st') →
  rowids_below (rowid_to_pkey (d st')) (generator st')
  ∧ (generator st' + 1 < RowID_modulus)%N.
Proof.
  intros Hroom Hold Hup.
  destruct (collectSantaRules db) as [[collected rules]|] eqn:Hdb;
    [|unfold updateRules in Hup; rewrite Hdb in Hup; discriminate].
  specialize (Hroom _ _ eq_refl).
  destruct collected.
  - split; [eapply updateRules_rowids_below; [done|done| |done]; lia|].
    unfold updateRules in Hup. rewrite Hdb in Hup. simpl in Hup.
    injection Hup as _ <-.
    pose proof (updateRules_loop_generator (rowid_to_pkey (d st)) rules
                  {| d := {| rowid_to_pkey := ∅; rule_list := ∅ |};
                     generator := generator st |}) as Hgen.
    simpl in Hgen. lia.
  - rewrite (updateRules_failure_keeps_state _ _ _ _ Hdb) in Hup.
    injection Hup as _ <-. split; [done|lia].
Qed.

(** [insert] and [delete_] keep the row identifiers below the generator, so
    the premise of the refresh properties holds in every state the table
    reaches from the empty one while the generator has room. *)
Lemma insert_rowids_below (host : Host) (db : RulesDatabase) (document : Document)
    (st st' : RulesState) (answer : QueryData) (effects : list Effect) :
  (∀ collected rules, collectSantaRules db = Some (collected, rules) →
     (generator st + N.of_nat (List.length rules) + 1 < RowID_modulus)%N) →
  rowids_below (rowid_to_pkey (d st)) (generator st) →
  insert iteration host db document st = Some (answer, st', effects) →
  rowids_below (rowid_to_pkey (d st')) (generator st').
Proof.
  intros Hroom Hold. unfold insert.
  destruct (GetRowData document) as [[status row]|]; [|discriminate]. simpl.
  destruct (ok status); simpl; [|by intros [= _ <- _]].
  destruct (row !! "identifier") as [ident|]; [|discriminate]. simpl.
  destruct (row !! "custom_message") as [msg|]; [|discriminate]. simpl.
  destruct (santactl_good host); simpl; [|by intros [= _ <- _]].
  destruct (ExecuteProcess host kSantactlPath _) as [executed output].
  destruct executed; simpl; [|by intros [= _ <- _]].
  destruct (exit_code output =? 0)%Z; simpl; [|by intros [= _ <- _]].
  destruct (updateRules iteration db st) as [[status1 st1]|] eqn:Hup; [|discriminate].
  destruct (updateRules_issued _ _ _ _ Hroom Hold Hup) as [Hold1 Hroom1]. simpl.
  destruct (ok status1); simpl; [|by intros [= _ <- _]].
  destruct (find _ _) as [[rowid pk]|]; [by intros [= _ <- _]|].
  rewrite N.mod_small by done.
  intros [= _ <- _]. simpl.
  intros r pk [Hm|(-> & _ & _)]%unordered_insert_lookup.
  - apply Hold1 in Hm. lia.
  - lia.
Qed.

Lemma delete_rowids_below (host : Host) (db : RulesDatabase) (id : string)
    (st st' : RulesState) (answer : QueryData) (effects : list Effect) :
  (∀ collected rules, collectSantaRules db = Some (collected, rules) →
     (generator st + N.of_nat (List.length rules) + 1 < RowID_modulus)%N) →
  rowids_below (rowid_to_pkey (d st)) (generator st) →
  delete_ iteration host db id st = Some (answer, st', effects) →
  rowids_below (rowid_to_pkey (d st')) (generator st').
Proof.
  intros Hroom Hold. unfold delete_.
  destruct (CStr.strtoull id) as [temp rest].
  destruct (bool_decide (rest = EmptyString)); simpl; [|by intros [= _ <- _]].
  destruct (rowid_to_pkey (d st) !! _) as [pkey|]; [|by intros [= _ <- _]].
  destruct (rule_list (d st) !! pkey) as [rule|]; [|by intros [= _ <- _]].
  destruct (remove_type_args rule) as [type_args|]; [|by intros [= _ <- _]].
  destruct (ExecuteProcess host kSantactlPath _) as [executed output].
  destruct (negb executed || negb (exit_code output =? 0)%Z); [by intros [= _ <- _]|].
  destruct (updateRules iteration db st) as [[status1 st1]|] eqn:Hup; [|discriminate].
  destruct (updateRules_issued _ _ _ _ Hroom Hold Hup) as [Hold1 _]. simpl.
  destruct (ok status1); by intros [= _ <- _].
Qed.

End RuleIdentity.

(** C3 as stated fails: two rules of one identifier and of unknown type
    share a key; the first refresh gives the key two row identifiers, the
    second keeps one of them. *)
Lemma updateRules_twice_twin_rules :
  ∃ st1 st2,
    updateRules map_to_list twin_db (no_rule_state 0) = Some (OK, st1)
    ∧ updateRules map_to_list twin_db st1 = Some (OK, st2)
    ∧ rowid_to_pkey (d st2) ≠ rowid_to_pkey (d st1).
Proof.
  eexists _, _. split; [vm_compute; reflexivity|]. split; [vm_compute; reflexivity|].
  intros Heq. apply (f_equal (λ m, m !! 0%N)) in Heq. vm_compute in Heq. discriminate.
Qed.

(** C1 as stated fails when the generator wraps: with one rule on row 0
    and the generator at [2^32 - 1], two new rules draw the rows
    [2^32 - 1] and 0, and the known rule, collected after them, finds its
    row taken and is left without one. *)
Lemma updateRules_identity_wrap :
  collectSantaRules wrap_db = Some (true, wrap_rules)
  ∧ rowids_below (rowid_to_pkey (d wrap_state)) (generator wrap_state)
  ∧ mapped (rowid_to_pkey (d wrap_state)) "a_binary"
  ∧ "a_binary" ∈ keys_of wrap_rules
  ∧ ∃ st', updateRules map_to_list wrap_db wrap_state = Some (OK, st')
      ∧ rowid_to_pkey (d st') !! 0%N = Some "c_binary"
      ∧ rowid_to_pkey (d st') !! 4294967295%N = Some "b_binary"
      ∧ ¬ mapped (rowid_to_pkey (d st')) "a_binary"
      ∧ ¬ refresh_keeps (rowid_to_pkey (d wrap_state)) (rowid_to_pkey (d st')) wrap_rules.
Proof.
  assert (mapped (rowid_to_pkey (d wrap_state)) "a_binary") as Hold
    by (exists 0%N; reflexivity).
  assert ("a_binary" ∈ keys_of wrap_rules) as Hin
    by (cbn; rewrite !elem_of_cons; auto).
  split; [vm_compute; reflexivity|]. split; [|split; [exact Hold|split; [exact Hin|]]].
  { intros r pk Hr. cbn in Hr. apply lookup_singleton_Some in Hr as [<- _]. reflexivity. }
  assert (updateRules map_to_list wrap_db wrap_state
          = Some (OK,
                  {| d := {| rowid_to_pkey :=
                               <[0%N := "c_binary"]> {[ 4294967295%N := "b_binary" ]};
                             rule_list := collected_rule_list wrap_rules ∅ |};
                     generator := 1 |})) as Hrun by (vm_compute; reflexivity).
  eexists. split; [exact Hrun|]. cbn [d rowid_to_pkey].
  assert (¬ mapped (<[0%N := "c_binary"]> {[ 4294967295%N := "b_binary" ]}) "a_binary")
    as Hgone.
  { intros [r Hr]. apply lookup_insert_Some in Hr as [[_ Hr]|[_ Hr]]; [discriminate Hr|].
    apply lookup_singleton_Some in Hr as [_ Hr]. discriminate Hr. }
  split; [reflexivity|]. split; [reflexivity|]. split; [exact Hgone|].
  intros Hkeeps. destruct (Hkeeps "a_binary" Hold Hin) as (r & _ & Hr & _).
  apply Hgone. by exists r.
Qed.

Lemma rowids_below_one_rule :
  rowids_below (rowid_to_pkey (d one_rule_state)) (generator one_rule_state).
Proof.
  intros r pk Hr. unfold one_rule_state in Hr; simpl in Hr.
  apply lookup_singleton_Some in Hr as [<- _]. reflexivity.
Qed.

Lemma updateRules_identity_witness :
  ∃ st', updateRules map_to_list two_rule_db two_key_state = Some (OK, st')
    ∧ (generator two_key_state ≤ generator st')%N
    ∧ refresh_keeps (rowid_to_pkey (d two_key_state)) (rowid_to_pkey (d st')) two_rules
    ∧ refresh_mints (rowid_to_pkey (d two_key_state)) (rowid_to_pkey (d st')) two_rules
        (generator two_key_state) (generator st')
    ∧ refresh_releases (rowid_to_pkey (d st')) two_rules.
Proof.
  apply (updateRules_identity map_to_list (λ m, reflexivity _) two_rule_db two_rules
           two_key_state).
  - reflexivity.
  - intros r pk Hr. cbn in Hr.
    apply lookup_insert_Some in Hr as [[<- _]|[_ Hr]]; [reflexivity|].
    apply lookup_singleton_Some in Hr as [<- _]. reflexivity.
  - reflexivity.
Defined.

Lemma updateRules_twice_witness :
  ∃ st1, updateRules map_to_list two_rule_db one_rule_state = Some (OK, st1)
    ∧ updateRules map_to_list two_rule_db st1 = Some (OK, st1).
Proof.
  apply (updateRules_twice map_to_list (λ m, reflexivity _) two_rule_db two_rule_db
           two_rules one_rule_state).
  - reflexivity.
  - reflexivity.
  - exact rowids_below_one_rule.
  - reflexivity.
  - split; [|split; [|exact I]].
    + intros _. exists 0%N. reflexivity.
    + intros H. inversion H.
Defined.

(** * Further properties *)

(** ** Names and keys *)

(** X1.  The name of a rule type reads back as that type, and a text that
    is none of the five type names reads as the unknown type. *)
Theorem type_name_round_trip (t : RuleType) (name : string) :
  getTypeFromRuleName (getRuleTypeName t) = t
  ∧ (name ∉ insert_type_names → getTypeFromRuleName name = UnknownType).
Proof.
  split; [by destruct t|].
  intros Hname. unfold getTypeFromRuleName, insert_type_names in *.
  repeat (case_bool_decide; [subst name; exfalso; apply Hname; set_solver|]).
  reflexivity.
Qed.

(** X2.  The name of a rule state reads back as that state; the legacy
    names [whitelist] and [blacklist] read as allow and block. *)
Theorem state_name_round_trip (s : RuleState) :
  getStateFromRuleName (getRuleStateName s) = s
  ∧ getStateFromRuleName "whitelist" = getStateFromRuleName "allow"
  ∧ getStateFromRuleName "blacklist" = getStateFromRuleName "block".
Proof. by destruct s. Qed.

Lemma underscore_split (a b n m : string) :
  "_"%char ∉ CStr.chars n → "_"%char ∉ CStr.chars m →
  a ++ String "_" n = b ++ String "_" m → a = b ∧ n = m.
Proof.
  intros Hn Hm. revert b.
  assert (∀ x y, "_"%char ∈ CStr.chars (x ++ String "_" y)) as Hin.
  { intros x y. induction x as [|c x IH]; cbn; [by left|by right]. }
  induction a as [|c a IH]; intros [|c' b]; cbn.
  - by intros [= ->].
  - intros [= <- ->]. destruct Hn. apply Hin.
  - intros [= -> <-]. destruct Hm. apply Hin.
  - intros [= -> Heq]. destruct (IH _ Heq) as [-> ->]. done.
Qed.

Lemma primary_key_inj (id1 id2 : string) (t1 t2 : RuleType) :
  generatePrimaryKey id1 t1 = generatePrimaryKey id2 t2 → id1 = id2 ∧ t1 = t2.
Proof.
  unfold generatePrimaryKey. intros Heq.
  apply (underscore_split id1 id2 (getRuleTypeName t1) (getRuleTypeName t2))
    in Heq as [-> Hname].
  - split; [done|]. by destruct t1, t2.
  - destruct t1; vm_compute; intros H; repeat (inversion H as [|? ? ? H']; clear H; rename H' into H).
  - destruct t2; vm_compute; intros H; repeat (inversion H as [|? ? ? H']; clear H; rename H' into H).
Qed.

(** X3.  The primary key tells rules apart: two keys are equal only for the
    same identifier and the same type. *)
Theorem generatePrimaryKey_inj (id1 id2 : string) (t1 t2 : RuleType) :
  generatePrimaryKey id1 t1 = generatePrimaryKey id2 t2 → id1 = id2 ∧ t1 = t2.
Proof. apply primary_key_inj. Qed.

Lemma generatePrimaryKey_inj_witness : "abc" = "abc" ∧ Binary = Binary.
Proof. apply (generatePrimaryKey_inj "abc" "abc" Binary Binary). reflexivity. Defined.

(** ** Rule snapshot collector *)

Lemma scan_columns_spec (cols : list string) (has_identifier has_shasum : bool) :
  scan_columns cols has_identifier has_shasum
  = (has_identifier || bool_decide ("identifier" ∈ cols),
     has_shasum || bool_decide ("shasum" ∈ cols)).
Proof.
  revert has_identifier has_shasum.
  induction cols as [|c cols IH]; intros hi hs; cbn [scan_columns].
  - assert (∀ x : string, bool_decide (x ∈ @nil string) = false) as Hnil
      by (intros x; apply bool_decide_eq_false_2; intros H; inversion H).
    by rewrite !Hnil, !orb_false_r.
  - assert (∀ x : string,
              bool_decide (x ∈ c :: cols) = bool_decide (c = x) || bool_decide (x ∈ cols))
      as Hcons.
    { intros x. destruct (decide (c = x)) as [->|Hne].
      - rewrite (bool_decide_eq_true_2 (x = x)) by done.
        apply bool_decide_eq_true_2. left.
      - rewrite (bool_decide_eq_false_2 (c = x)) by done.
        apply bool_decide_ext. rewrite elem_of_cons.
        split; [intros [?|?]; [congruence|done] | by right]. }
    rewrite !Hcons.
    destruct (decide (c = "identifier")) as [->|Hi];
      [|destruct (decide (c = "shasum")) as [->|Hs]].
    + rewrite IH, (bool_decide_eq_true_2 ("identifier" = "identifier")) by done.
      rewrite (bool_decide_eq_false_2 ("identifier" = "shasum")) by done.
      by rewrite orb_true_r.
    + rewrite (bool_decide_eq_false_2 ("shasum" = "identifier")) by done.
      rewrite IH, (bool_decide_eq_true_2 ("shasum" = "shasum")) by done.
      by rewrite orb_true_r.
    + rewrite (bool_decide_eq_false_2 (c = "identifier")) by done.
      rewrite (bool_decide_eq_false_2 (c = "shasum")) by done.
      by rewrite IH.
Qed.

(** X4.  Once the snapshot is copied and opened and its schema is read, the
    rules are selected by the [identifier] column when the table has one
    (also when it has a [shasum] column as well), by the [shasum] column
    when it has only that, and the collection fails when it has neither. *)
Theorem collectSantaRules_schema (db : RulesDatabase) :
  src_is_open db = true → dst_is_open db = true →
  sqlite3_open_rc db = SQLITE_OK → table_info_rc db = SQLITE_OK →
  collectSantaRules db
  = if bool_decide ("identifier" ∈ table_info_columns db) then query_outcome db "identifier"
    else if bool_decide ("shasum" ∈ table_info_columns db) then query_outcome db "shasum"
    else Some (false, []).
Proof.
  intros Hsrc Hdst Hopen Hschema. unfold collectSantaRules, query_outcome.
  rewrite Hsrc, Hdst, Hopen, Hschema, scan_columns_spec. cbn [negb orb Z.eqb SQLITE_OK].
  destruct (bool_decide ("identifier" ∈ table_info_columns db)).
  - by destruct (sqlite3_exec_result db _).
  - destruct (bool_decide ("shasum" ∈ table_info_columns db)); [|done].
    by destruct (sqlite3_exec_result db _).
Qed.

Lemma collectSantaRules_schema_witness :
  collectSantaRules two_rule_db
  = if bool_decide ("identifier" ∈ table_info_columns two_rule_db)
    then query_outcome two_rule_db "identifier"
    else if bool_decide ("shasum" ∈ table_info_columns two_rule_db)
         then query_outcome two_rule_db "shasum"
         else Some (false, []).
Proof. apply (collectSantaRules_schema two_rule_db); reflexivity. Defined.

Lemma rulesCallback_None (argv : list (option string)) (rules : RuleEntries) :
  rulesCallback argv rules = None ↔ null_deref argv.
Proof.
  unfold rulesCallback, null_deref. split.
  - destruct argv as [|a0 [|a1 [|a2 [|a3 [|]]]]]; try discriminate.
    intros H. exists a0, a1, a2, a3. split; [done|].
    destruct a0; [|by left]. destruct a1; [discriminate|by right].
  - intros (a0 & a1 & a2 & a3 & -> & [-> | ->]); [done|by destruct a0].
Qed.

Lemma rulesCallback_Some (argv : list (option string)) (rules : RuleEntries) :
  ¬ null_deref argv →
  rulesCallback argv rules
  = Some (rules ++ from_option (λ r, [r]) [] (rule_of_row argv))%list.
Proof.
  intros Hnull. unfold rulesCallback, rule_of_row.
  destruct argv as [|[ident|] [|[state_text|] [|a2 [|a3 [|]]]]];
    simpl; rewrite ?app_nil_r; try done.
  - destruct Hnull. exists (Some ident), None, a2, a3. by split; [|right].
  - destruct Hnull. eexists None, _, _, _. by split; [|left].
  - destruct Hnull. eexists None, _, _, _. by split; [|left].
Qed.

(** X5.  The rows of the rules query are converted in order, one rule for
    each row of four columns, rows of any other width being passed over;
    the conversion breaks down exactly when some row of four columns has a
    NULL identifier or a NULL state. *)
Theorem run_callback_rows (rows : list (list (option string))) (response : RuleEntries) :
  (Exists null_deref rows → run_callback rows response = None)
  ∧ (¬ Exists null_deref rows →
     run_callback rows response = Some (response ++ omap rule_of_row rows)%list).
Proof.
  revert response. induction rows as [|argv rows IH]; intros response.
  - split; [by inversion 1|]. intros _. simpl. by rewrite app_nil_r.
  - split.
    + intros Hex. simpl.
      destruct (rulesCallback argv response) as [response'|] eqn:Hcb; [|done]. simpl.
      apply Exists_cons in Hex as [Hnull|Hex]; [|by apply IH].
      apply (rulesCallback_None argv response) in Hnull. congruence.
    + intros Hnone.
      assert (¬ null_deref argv) as Hhd by (intros ?; apply Hnone; by apply Exists_cons_hd).
      assert (¬ Exists null_deref rows) as Htl
        by (intros ?; apply Hnone; by apply Exists_cons_tl).
      simpl. rewrite (rulesCallback_Some _ _ Hhd). simpl.
      destruct (IH (response ++ from_option (λ r, [r]) [] (rule_of_row argv))%list)
        as [_ IH2].
      rewrite (IH2 Htl).
      destruct (rule_of_row argv); simpl; by rewrite <- ?app_assoc, ?app_nil_r.
Qed.

(** ** Decimal texts *)

Lemma read_digits_uint (u : Decimal.uint) (acc : Z) (n : nat) :
  CStr.read_digits acc n (NilEmpty.string_of_uint u)
  = (uint_acc acc u, (n + Decimal.nb_digits u)%nat, EmptyString).
Proof.
  revert acc n.
  induction u; intros acc n; cbn [NilEmpty.string_of_uint uint_acc Decimal.nb_digits];
    [by rewrite Nat.add_0_r| ..];
    cbn [CStr.read_digits]; (change (CStr.digit_val _) with (Some 0%Z)
      || change (CStr.digit_val _) with (Some 1%Z) || change (CStr.digit_val _) with (Some 2%Z)
      || change (CStr.digit_val _) with (Some 3%Z) || change (CStr.digit_val _) with (Some 4%Z)
      || change (CStr.digit_val _) with (Some 5%Z) || change (CStr.digit_val _) with (Some 6%Z)
      || change (CStr.digit_val _) with (Some 7%Z) || change (CStr.digit_val _) with (Some 8%Z)
      || change (CStr.digit_val _) with (Some 9%Z));
    cbv iota; rewrite IHu, ?Z.add_0_r, Nat.add_succ_r; reflexivity.
Qed.

Lemma uint_acc_value (u : Decimal.uint) (acc : Z) :
  uint_acc acc u
  = (acc * Z.of_N (10 ^ DecimalPos.Unsigned.usize u)
     + Z.of_N (DecimalPos.Unsigned.of_lu (Decimal.rev u)))%Z.
Proof.
  revert acc.
  induction u; intros acc; cbn [uint_acc DecimalPos.Unsigned.usize];
    [simpl; lia| ..];
    rewrite N.pow_succ_r'; unfold Decimal.rev; cbn [Decimal.revapp];
    rewrite (DecimalPos.Unsigned.of_lu_revapp u); cbn [DecimalPos.Unsigned.of_lu];
    rewrite IHu, ?N2Z.inj_add, ?N2Z.inj_mul; simpl Z.of_N; lia.
Qed.

Lemma to_string_digits (n : N) :
  CStr.read_sign (CStr.skip_spaces (to_string n)) = (false, to_string n)
  ∧ CStr.read_digits 0 0 (to_string n)
    = (Z.of_N n, Decimal.nb_digits (N.to_uint n), EmptyString)
  ∧ Decimal.nb_digits (N.to_uint n) ≠ 0%nat.
Proof.
  unfold to_string. split; [|split].
  - assert (N.to_uint n ≠ Decimal.Nil) as Hnil.
    { destruct n; [discriminate|]. apply DecimalPos.Unsigned.to_uint_nonnil. }
    by destruct (N.to_uint n).
  - rewrite read_digits_uint, uint_acc_value. simpl Z.mul. rewrite Z.add_0_l.
    rewrite <- DecimalPos.Unsigned.of_uint_alt.
    change (Pos.of_uint (N.to_uint n)) with (N.of_uint (N.to_uint n)).
    by rewrite DecimalN.Unsigned.of_to.
  - destruct n as [|p]; [discriminate|]. simpl.
    pose proof (DecimalPos.Unsigned.to_uint_nonnil p). by destruct (Pos.to_uint p).
Qed.

Lemma strtoull_to_string (n : N) :
  (n < 2 ^ 64)%N → CStr.strtoull (to_string n) = (Z.of_N n, EmptyString).
Proof.
  intros Hn. unfold CStr.strtoull.
  destruct (to_string_digits n) as (-> & -> & Hnz).
  destruct (Decimal.nb_digits (N.to_uint n)); [done|].
  unfold CStr.ULLONG_MAX.
  destruct (Z.ltb_spec (2 ^ 64 - 1) (Z.of_N n)) as [Hlt|_]; [|done].
  change (2 ^ 64)%N with (Z.to_N (2 ^ 64)) in Hn. lia.
Qed.

Lemma atoi_to_string (n : N) :
  (n < 2 ^ 31)%N → CStr.atoi (to_string n) = Z.of_N n.
Proof.
  intros Hn. unfold CStr.atoi, CStr.strtol.
  destruct (to_string_digits n) as (-> & -> & _).
  change (2 ^ 31)%N with (Z.to_N (2 ^ 31)) in Hn.
  unfold CStr.LONG_MIN, CStr.LONG_MAX, CStr.to_int.
  rewrite Z.min_r, Z.max_r by lia.
  rewrite Z.mod_small by lia. lia.
Qed.

(** X6.  A type column that holds the integer [code] (below [2^31]) as its
    decimal text is read back as that integer: the rule gets the type the
    code stands for. *)
Theorem rulesCallback_integer_type (ident state_text : string) (code : N)
    (a3 : option string) (rules : RuleEntries) :
  (code < 2 ^ 31)%N →
  rulesCallback [Some ident; Some state_text; Some (to_string code); a3] rules
  = Some (rules ++ [ {| type := type_of_code (Z.of_N code);
                        state := if first_char_is_1 state_text then Whitelist else Blacklist;
                        identifier := ident;
                        custom_message := default EmptyString a3 |} ])%list.
Proof. intros Hcode. rewrite rulesCallback_row. simpl. by rewrite atoi_to_string. Qed.

Lemma rulesCallback_integer_type_witness :
  rulesCallback [Some "abc"; Some "2"; Some (to_string 4000); None] []
  = Some ([] ++ [ {| type := type_of_code (Z.of_N 4000);
                     state := if first_char_is_1 "2" then Whitelist else Blacklist;
                     identifier := "abc";
                     custom_message := default EmptyString None |} ])%list.
Proof. apply (rulesCallback_integer_type "abc" "2" 4000 None []). reflexivity. Defined.

(** ** Delete by row identifier *)

Lemma delete_selects_row (iteration : gmap N string → list (N * string))
    (host : Host) (db : RulesDatabase) (st : RulesState)
    (rowid : N) (pkey : string) (rule : RuleEntry) (type_args : list string)
    (output : string) :
  (rowid < RowID_modulus)%N →
  rowid_to_pkey (d st) !! rowid = Some pkey →
  rule_list (d st) !! pkey = Some rule →
  remove_type_args rule = Some type_args →
  popen host (command_line kSantactlPath (["rule"; "--remove"] ++ type_args)) = Some (output, 0%Z) →
  delete_ iteration host db (to_string rowid) st
  = '(status, st') ← updateRules iteration db st;
    Some (if ok status then [ {[ "status" := "success" ]} ] else failure, st',
          [Exec kSantactlPath (["rule"; "--remove"] ++ type_args)%list]).
Proof.
  intros Hrow Hm Hrule Hargs Hrun. unfold delete_.
  rewrite strtoull_to_string by (unfold RowID_modulus in Hrow; lia).
  rewrite bool_decide_eq_true_2 by done. cbn [negb].
  assert (Z.to_N (Z.of_N rowid mod 2 ^ 32) = rowid) as ->.
  { unfold RowID_modulus in Hrow. rewrite Z.mod_small; lia. }
  rewrite Hm, Hrule, Hargs. unfold ExecuteProcess.
  change (("rule" :: "--remove" :: type_args)) with (["rule"; "--remove"] ++ type_args)%list.
  rewrite Hrun. simpl.
  destruct (updateRules iteration db st) as [[status st']|]; [|done]. simpl.
  by destruct (ok status).
Qed.

(** X7.  The decimal text of a row identifier selects that row: [delete_]
    runs [santactl rule --remove] with the identifier and the type flag of
    the rule the row stands for, and when the command succeeds it answers
    success exactly when the refresh that follows succeeds. *)
Theorem delete_by_rowid (iteration : gmap N string → list (N * string))
    (host : Host) (db : RulesDatabase) (st : RulesState)
    (rowid : N) (pkey : string) (rule : RuleEntry) (type_args : list string)
    (output : string) :
  (rowid < RowID_modulus)%N →
  rowid_to_pkey (d st) !! rowid = Some pkey →
  rule_list (d st) !! pkey = Some rule →
  remove_type_args rule = Some type_args →
  popen host (command_line kSantactlPath (["rule"; "--remove"] ++ type_args)) = Some (output, 0%Z) →
  delete_ iteration host db (to_string rowid) st
  = '(status, st') ← updateRules iteration db st;
    Some (if ok status then [ {[ "status" := "success" ]} ] else failure, st',
          [Exec kSantactlPath (["rule"; "--remove"] ++ type_args)%list]).
Proof. apply delete_selects_row. Qed.

Lemma delete_by_rowid_witness :
  delete_ map_to_list obliging_host empty_db (to_string 0) one_rule_state
  = '(status, st') ← updateRules map_to_list empty_db one_rule_state;
    Some (if ok status then [ {[ "status" := "success" ]} ] else failure, st',
          [Exec kSantactlPath (["rule"; "--remove"] ++ ["--identifier"; "abc"])%list]).
Proof.
  apply (delete_by_rowid map_to_list obliging_host empty_db one_rule_state 0 "abc_binary"
           {| type := Binary; state := Whitelist;
              identifier := "abc"; custom_message := EmptyString |}
           ["--identifier"; "abc"] EmptyString); reflexivity.
Defined.

(** ** The tables after a refresh *)

Lemma collected_rule_list_lookup (rules : RuleEntries) (init : gmap string RuleEntry)
    (pk : string) :
  collected_rule_list rules init !! pk
  = match init !! pk with
    | Some rule => Some rule
    | None => first_rule pk rules
    end.
Proof.
  unfold collected_rule_list, first_rule. revert init.
  induction rules as [|rule rules IH]; intros init; simpl; [by destruct (init !! pk)|].
  rewrite IH. unfold unordered_insert.
  destruct (init !! generatePrimaryKey_rule rule) as [old|] eqn:Hk.
  - destruct (init !! pk) eqn:Hpk; [done|].
    rewrite bool_decide_eq_false_2; [done|]. intros <-. congruence.
  - case_bool_decide as Heq.
    + subst pk. by rewrite lookup_insert_eq, Hk.
    + by rewrite lookup_insert_ne.
Qed.

Section AfterRefresh.

Variable iteration : gmap N string → list (N * string).
Hypothesis iteration_perm : ∀ m, iteration m ≡ₚ map_to_list m.

Lemma updateRules_loop_entries (old : gmap N string) (rules : RuleEntries) (st : RulesState)
    (r : N) (pk : string) :
  rowid_to_pkey (d (updateRules_loop iteration old rules st)) !! r = Some pk →
  rowid_to_pkey (d st) !! r = Some pk ∨ pk ∈ keys_of rules.
Proof.
  revert st. induction rules as [|rule rest IH]; intros st; simpl; [by left|].
  destruct (match find_rowid iteration old (generatePrimaryKey_rule rule) with
            | Some rowid => (rowid, generator st)
            | None => generateRowID (generator st)
            end) as [rowid generator'].
  intros [Hin|Hin]%IH; [|right; by right]. simpl in Hin.
  apply unordered_insert_lookup in Hin as [Hin|(_ & -> & _)]; [by left|right; by left].
Qed.

Lemma refresh_rule_list (db : RulesDatabase) (rules : RuleEntries)
    (st st' : RulesState) (status : Status) (pk : string) :
  collectSantaRules db = Some (true, rules) →
  updateRules iteration db st = Some (status, st') →
  rule_list (d st') !! pk = first_rule pk rules.
Proof.
  intros Hdb. unfold updateRules. rewrite Hdb. simpl. intros [= _ <-].
  rewrite updateRules_loop_rule_list, collected_rule_list_lookup. simpl.
  by rewrite lookup_empty.
Qed.

(** X8.  After a refresh that succeeds, the rule table holds, under each
    primary key, the first collected rule with that key, and nothing under
    any other key. *)
Theorem updateRules_first_rule (db : RulesDatabase) (rules : RuleEntries)
    (st st' : RulesState) (status : Status) (pk : string) :
  collectSantaRules db = Some (true, rules) →
  updateRules iteration db st = Some (status, st') →
  rule_list (d st') !! pk = first_rule pk rules.
Proof. apply refresh_rule_list. Qed.

Lemma first_rule_Some (pk : string) (rules : RuleEntries) (rule : RuleEntry) :
  first_rule pk rules = Some rule → rule ∈ rules ∧ generatePrimaryKey_rule rule = pk.
Proof.
  intros [Hin Hpk]%find_some. apply bool_decide_eq_true in Hpk.
  split; [by apply list_elem_of_In|done].
Qed.

Lemma first_rule_is_Some (pk : string) (rules : RuleEntries) :
  pk ∈ keys_of rules → is_Some (first_rule pk rules).
Proof.
  unfold keys_of. intros (rule & -> & Hin)%list_elem_of_fmap.
  destruct (first_rule (generatePrimaryKey_rule rule) rules) eqn:Hf; [by eexists|].
  apply list_elem_of_In in Hin. apply (find_none _ _ Hf) in Hin.
  by apply bool_decide_eq_false in Hin.
Qed.

Lemma refresh_tables_agree (db : RulesDatabase) (rules : RuleEntries)
    (st st' : RulesState) (status : Status) (r : N) (pk : string) :
  collectSantaRules db = Some (true, rules) →
  updateRules iteration db st = Some (status, st') →
  rowid_to_pkey (d st') !! r = Some pk →
  ∃ rule, rule_list (d st') !! pk = Some rule
          ∧ rule ∈ rules ∧ generatePrimaryKey_rule rule = pk.
Proof.
  intros Hdb Hup Hr.
  rewrite (refresh_rule_list db rules st st' status pk Hdb Hup).
  unfold updateRules in Hup. rewrite Hdb in Hup. simpl in Hup. injection Hup as _ <-.
  apply updateRules_loop_entries in Hr as [Hr|Hin];
    [simpl in Hr; by rewrite lookup_empty in Hr|].
  destruct (first_rule_is_Some _ _ Hin) as [rule Hrule].
  exists rule. split; [done|]. by apply first_rule_Some.
Qed.

(** X9.  After a refresh that succeeds, every row identifier stands for a
    primary key under which the rule table holds a collected rule with that
    very key: the tables never disagree. *)
Theorem updateRules_tables_agree (db : RulesDatabase) (rules : RuleEntries)
    (st st' : RulesState) (status : Status) (r : N) (pk : string) :
  collectSantaRules db = Some (true, rules) →
  updateRules iteration db st = Some (status, st') →
  rowid_to_pkey (d st') !! r = Some pk →
  ∃ rule, rule_list (d st') !! pk = Some rule
          ∧ rule ∈ rules ∧ generatePrimaryKey_rule rule = pk.
Proof. apply refresh_tables_agree. Qed.

Lemma generate_rows_all (rule_list : gmap string RuleEntry) (pairs : list (N * string)) :
  (∀ r pk, (r, pk) ∈ pairs → is_Some (rule_list !! pk)) →
  List.length (generate_rows rule_list pairs) = List.length pairs
  ∧ ∀ r pk rule, (r, pk) ∈ pairs → rule_list !! pk = Some rule →
      rule_row r rule ∈ generate_rows rule_list pairs.
Proof.
  induction pairs as [|[r0 pk0] pairs IH]; intros Hall; simpl.
  - split; [done|]. intros r pk rule Hin. inversion Hin.
  - destruct (Hall r0 pk0) as [rule0 Hrule0]; [by left|]. rewrite Hrule0.
    destruct IH as [Hlen Hrows]; [intros r pk Hin; apply (Hall r pk); by right|].
    split; [simpl; by rewrite Hlen|].
    intros r pk rule [[= -> ->]|Hin]%elem_of_cons Hrule.
    + rewrite Hrule0 in Hrule. injection Hrule as ->. by left.
    + right. by eapply Hrows.
Qed.

(** X10.  [generate] answers a refresh that succeeds with one row for every
    row identifier of the mapping, filled from the rule the identifier
    stands for; no row identifier is skipped for want of a rule. *)
Theorem generate_rows_complete (db : RulesDatabase) (rules : RuleEntries)
    (st : RulesState) :
  collectSantaRules db = Some (true, rules) →
  ∃ rows st', generate iteration db st = Some (rows, st')
    ∧ updateRules iteration db st = Some (OK, st')
    ∧ List.length rows = size (rowid_to_pkey (d st'))
    ∧ ∀ r pk, rowid_to_pkey (d st') !! r = Some pk →
        ∃ rule, rule_list (d st') !! pk = Some rule ∧ rule_row r rule ∈ rows.
Proof.
  intros Hdb. unfold generate.
  destruct (updateRules iteration db st) as [[status st']|] eqn:Hup;
    [|unfold updateRules in Hup; rewrite Hdb in Hup; discriminate].
  assert (status = OK) as ->.
  { unfold updateRules in Hup. rewrite Hdb in Hup. simpl in Hup. by injection Hup as <- _. }
  simpl. eexists _, _. split; [reflexivity|]. split; [done|].
  destruct (generate_rows_all (rule_list (d st')) (iteration (rowid_to_pkey (d st'))))
    as [Hlen Hrows].
  { intros r pk Hin. rewrite iteration_perm in Hin. apply elem_of_map_to_list in Hin.
    destruct (refresh_tables_agree db rules st st' OK r pk Hdb Hup Hin) as (rule & -> & _).
    by eexists. }
  split.
  - rewrite Hlen, iteration_perm. apply length_map_to_list.
  - intros r pk Hr.
    destruct (refresh_tables_agree db rules st st' OK r pk Hdb Hup Hr) as (rule & Hrule & _).
    exists rule. split; [done|]. apply (Hrows r pk rule); [|done].
    rewrite iteration_perm. by apply elem_of_map_to_list.
Qed.

(** X11.  When the collection fails, [generate] answers with the single
    failure row and keeps the tables and the generator as they were. *)
Theorem generate_failure (db : RulesDatabase) (rules : RuleEntries) (st : RulesState) :
  collectSantaRules db = Some (false, rules) →
  generate iteration db st = Some ([ {[ "status" := "failure" ]} ], st).
Proof.
  intros Hdb. unfold generate.
  by rewrite (updateRules_failure_keeps_state iteration db rules st Hdb).
Qed.

End AfterRefresh.

Lemma updateRules_first_rule_witness :
  first_rule "abc_unknown" twin_rules
  = Some {| type := UnknownType; state := Whitelist; identifier := "abc";
            custom_message := EmptyString |}
  ∧ rule_list (d {| d := {| rowid_to_pkey := <[1%N := "abc_unknown"]> {[ 0%N := "abc_unknown" ]};
                            rule_list := collected_rule_list twin_rules ∅ |};
                    generator := 2 |}) !! "abc_unknown"
    = first_rule "abc_unknown" twin_rules.
Proof.
  split; [reflexivity|].
  apply (updateRules_first_rule map_to_list twin_db twin_rules (no_rule_state 0)
           {| d := {| rowid_to_pkey := <[1%N := "abc_unknown"]> {[ 0%N := "abc_unknown" ]};
                      rule_list := collected_rule_list twin_rules ∅ |};
              generator := 2 |} OK "abc_unknown").
  - vm_compute. reflexivity.
  - vm_compute. reflexivity.
Defined.

Lemma two_rule_refresh :
  updateRules map_to_list two_rule_db one_rule_state
  = Some (OK,
          {| d := {| rowid_to_pkey := <[1%N := "def_certificate"]> {[ 0%N := "abc_binary" ]};
                     rule_list := collected_rule_list two_rules ∅ |};
             generator := 2 |}).
Proof. reflexivity. Qed.

Lemma updateRules_tables_agree_witness :
  ∃ rule, collected_rule_list two_rules ∅ !! "abc_binary" = Some rule
          ∧ rule ∈ two_rules ∧ generatePrimaryKey_rule rule = "abc_binary".
Proof.
  apply (updateRules_tables_agree map_to_list two_rule_db two_rules one_rule_state
           {| d := {| rowid_to_pkey := <[1%N := "def_certificate"]> {[ 0%N := "abc_binary" ]};
                      rule_list := collected_rule_list two_rules ∅ |};
              generator := 2 |} OK 0%N "abc_binary"); reflexivity.
Defined.

Lemma generate_rows_complete_witness :
  ∃ rows st', generate map_to_list two_rule_db one_rule_state = Some (rows, st')
    ∧ updateRules map_to_list two_rule_db one_rule_state = Some (OK, st')
    ∧ List.length rows = size (rowid_to_pkey (d st'))
    ∧ ∀ r pk, rowid_to_pkey (d st') !! r = Some pk →
        ∃ rule, rule_list (d st') !! pk = Some rule ∧ rule_row r rule ∈ rows.
Proof.
  apply (generate_rows_complete map_to_list (λ m, reflexivity _) two_rule_db two_rules
           one_rule_state).
  reflexivity.
Defined.

Lemma generate_failure_witness :
  generate map_to_list
    {| src_is_open := false; dst_is_open := true; sqlite3_open_rc := 0; table_info_rc := 0;
       table_info_columns := []; sqlite3_exec_result := λ _, (0%Z, []);
       sqlite3_close_rc := 0 |} one_rule_state
  = Some ([ {[ "status" := "failure" ]} ], one_rule_state).
Proof.
  apply (generate_failure map_to_list _ [] one_rule_state). reflexivity.
Defined.

(** ** Insert *)

Lemma GetRowData_accepted_row (ident state_text rule_type : string) (msg : option string) :
  identifier_error rule_type ident = None →
  state_recognized state_text = true →
  GetRowData (payload ident state_text rule_type msg)
  = Some (OK, payload_row ident state_text rule_type msg).
Proof.
  intros Hid Hstate. unfold GetRowData, payload, payload_row.
  destruct msg; simpl; rewrite Hid; simpl; by rewrite Hstate.
Qed.

Lemma identifier_error_type_names (rule_type ident : string) :
  identifier_error rule_type ident = None → rule_type ∈ insert_type_names.
Proof.
  unfold identifier_error, insert_type_names.
  repeat (case_bool_decide; [subst rule_type; intros _; set_solver|]).
  intros [=].
Qed.

(** X12.  [GetRowData] answers OK only for an array of four columns whose
    identifier, state and type are strings and whose message is a string or
    null, with one of the five type names, a recognised state and an
    identifier valid for the type; the row then holds the four values. *)
Theorem GetRowData_accepted_shape (document : Document) (row : Row) :
  GetRowData document = Some (OK, row) →
  ∃ ident state_text rule_type msg,
    document = payload ident state_text rule_type msg
    ∧ rule_type ∈ insert_type_names
    ∧ state_recognized state_text = true
    ∧ identifier_error rule_type ident = None
    ∧ row = payload_row ident state_text rule_type msg.
Proof.
  unfold GetRowData.
  destruct document as [| |elems]; try discriminate.
  destruct elems as [|d0 [|d1 [|d2 [|d3 [|]]]]]; try discriminate.
  destruct d0 as [|ident|], d1 as [|state_text|], d2 as [|rule_type|], d3 as [|m|];
    simpl; try discriminate; try (by destruct (identifier_error _ _)).
  - destruct (identifier_error rule_type ident) as [reason|] eqn:Hid; [discriminate|]. simpl.
    destruct (state_recognized state_text) eqn:Hstate; simpl; [|discriminate].
    intros [= <-]. exists ident, state_text, rule_type, None.
    repeat split; try done. by eapply identifier_error_type_names.
  - destruct (identifier_error rule_type ident) as [reason|] eqn:Hid; [discriminate|]. simpl.
    destruct (state_recognized state_text) eqn:Hstate; simpl; [|discriminate].
    intros [= <-]. exists ident, state_text, rule_type, (Some m).
    repeat split; try done. by eapply identifier_error_type_names.
Qed.

Lemma GetRowData_accepted_shape_witness :
  ∃ ident state_text rule_type msg,
    payload "ABCDE12345" "allow" "teamid" None = payload ident state_text rule_type msg
    ∧ rule_type ∈ insert_type_names
    ∧ state_recognized state_text = true
    ∧ identifier_error rule_type ident = None
    ∧ payload_row "ABCDE12345" "allow" "teamid" None
      = payload_row ident state_text rule_type msg.
Proof.
  apply (GetRowData_accepted_shape (payload "ABCDE12345" "allow" "teamid" None)
           (payload_row "ABCDE12345" "allow" "teamid" None)).
  reflexivity.
Defined.

Lemma payload_row_lookups (ident state_text rule_type : string) (msg : option string) :
  row_get (payload_row ident state_text rule_type msg) "state" = state_text
  ∧ row_get (payload_row ident state_text rule_type msg) "type" = rule_type
  ∧ payload_row ident state_text rule_type msg !! "identifier" = Some ident
  ∧ payload_row ident state_text rule_type msg !! "custom_message"
    = Some (default EmptyString msg).
Proof.
  unfold row_get, payload_row.
  split; [|split; [|split]]; by simplify_map_eq.
Qed.

(** The rest of [insert] sees a payload only through the identifier, the
    type, the message, the allow flag and the state its name stands for. *)
Lemma insert_state_name (iteration : gmap N string → list (N * string))
    (host : Host) (db : RulesDatabase) (st : RulesState)
    (ident s1 s2 rule_type : string) (msg : option string) :
  state_recognized s1 = true → state_recognized s2 = true →
  getStateFromRuleName s1 = getStateFromRuleName s2 →
  bool_decide (s1 = "whitelist") || bool_decide (s1 = "allow")
  = bool_decide (s2 = "whitelist") || bool_decide (s2 = "allow") →
  insert iteration host db (payload ident s1 rule_type msg) st
  = insert iteration host db (payload ident s2 rule_type msg) st.
Proof.
  intros H1 H2 Hstate Hflag. unfold insert.
  destruct (identifier_error rule_type ident) as [reason|] eqn:Hid.
  - unfold GetRowData, payload. by destruct msg; simpl; rewrite Hid.
  - rewrite !GetRowData_accepted_row by done. simpl.
    destruct (payload_row_lookups ident s1 rule_type msg) as (-> & -> & -> & ->).
    destruct (payload_row_lookups ident s2 rule_type msg) as (-> & -> & -> & ->).
    by rewrite Hstate, Hflag.
Qed.

(** X13.  The legacy state names are synonyms: an insert with [whitelist]
    does what the same insert with [allow] does, and one with [blacklist]
    what one with [block] does (same command, same reply, same state). *)
Theorem insert_synonyms (iteration : gmap N string → list (N * string))
    (host : Host) (db : RulesDatabase) (st : RulesState)
    (ident rule_type : string) (msg : option string) :
  insert iteration host db (payload ident "whitelist" rule_type msg) st
  = insert iteration host db (payload ident "allow" rule_type msg) st
  ∧ insert iteration host db (payload ident "blacklist" rule_type msg) st
    = insert iteration host db (payload ident "block" rule_type msg) st.
Proof. split; by apply insert_state_name. Qed.

Lemma remove_args_of_name (rule_type ident : string) (s : RuleState) (msg : string) :
  rule_type ∈ insert_type_names →
  remove_type_args {| type := getTypeFromRuleName rule_type; state := s;
                      identifier := ident; custom_message := msg |}
  = Some (insert_type_args rule_type ident).
Proof.
  unfold insert_type_names. intros Hty.
  repeat (apply elem_of_cons in Hty as [->|Hty]; [reflexivity|]).
  inversion Hty.
Qed.

(** X14.  What [insert] adds, [delete_] removes with the same arguments:
    for each of the five type names the identifier and type flag that
    [insert] hands to [santactl] are those [delete_] builds for a rule of
    the type the name stands for. *)
Theorem remove_args_match_insert (rule_type ident : string) (s : RuleState) (msg : string) :
  rule_type ∈ insert_type_names →
  remove_type_args {| type := getTypeFromRuleName rule_type; state := s;
                      identifier := ident; custom_message := msg |}
  = Some (insert_type_args rule_type ident).
Proof. apply remove_args_of_name. Qed.

Lemma remove_args_match_insert_witness :
  remove_type_args {| type := getTypeFromRuleName "signingid"; state := Blacklist;
                      identifier := "ABCDE12345:com.example"; custom_message := EmptyString |}
  = Some (insert_type_args "signingid" "ABCDE12345:com.example").
Proof.
  apply (remove_args_match_insert "signingid" "ABCDE12345:com.example" Blacklist EmptyString).
  unfold insert_type_names. set_solver.
Defined.

Lemma identifier_error_cdhash (ident : string) :
  identifier_error "cdhash" ident = None ↔ Forall lower_hex (CStr.chars ident).
Proof.
  unfold identifier_error. decide_names.
  rewrite <- find_first_not_of_hex.
  case_bool_decide as Hhex; split; done.
Qed.

(** X15.  A cdhash identifier is valid exactly when it consists of
    lowercase hexadecimal characters, whatever its length; the empty
    identifier therefore passes for cdhash and certificate rules, while it
    is turned down for binary, teamid and signingid rules. *)
Theorem cdhash_validation (ident state_text : string) (msg : option string) :
  state_recognized state_text = true →
  (accepted (payload ident state_text "cdhash" msg) ↔ Forall lower_hex (CStr.chars ident))
  ∧ accepted (payload EmptyString state_text "cdhash" msg)
  ∧ accepted (payload EmptyString state_text "certificate" msg)
  ∧ ¬ accepted (payload EmptyString state_text "binary" msg)
  ∧ ¬ accepted (payload EmptyString state_text "teamid" msg)
  ∧ ¬ accepted (payload EmptyString state_text "signingid" msg).
Proof.
  intros Hstate. rewrite !(GetRowData_payload _ _ _ _ Hstate).
  split; [apply identifier_error_cdhash|].
  repeat split; try reflexivity; discriminate.
Qed.

Lemma cdhash_validation_witness :
  (accepted (payload "0a1b" "block" "cdhash" None) ↔ Forall lower_hex (CStr.chars "0a1b"))
  ∧ accepted (payload EmptyString "block" "cdhash" None)
  ∧ accepted (payload EmptyString "block" "certificate" None)
  ∧ ¬ accepted (payload EmptyString "block" "binary" None)
  ∧ ¬ accepted (payload EmptyString "block" "teamid" None)
  ∧ ¬ accepted (payload EmptyString "block" "signingid" None).
Proof. apply (cdhash_validation "0a1b" "block" None). reflexivity. Defined.

Section InsertedRow.

Variable iteration : gmap N string → list (N * string).
Hypothesis iteration_perm : ∀ m, iteration m ≡ₚ map_to_list m.

(** What a successful insert leaves behind. *)
Lemma insert_row_resolves (host : Host) (db : RulesDatabase) (st : RulesState)
    (rules : RuleEntries) (ident state_text rule_type : string) (msg : option string) :
  identifier_error rule_type ident = None →
  state_recognized state_text = true →
  santactl_good host = true →
  (∀ cmd, ∃ output, popen host cmd = Some (output, 0%Z)) →
  collectSantaRules db = Some (true, rules) →
  rowids_below (rowid_to_pkey (d st)) (generator st) →
  (generator st + N.of_nat (List.length rules) + 1 < RowID_modulus)%N →
  ∃ row_id st' args rule,
    insert iteration host db (payload ident state_text rule_type msg) st
    = Some (inserted row_id, st', [Exec kSantactlPath args])
    ∧ (row_id < RowID_modulus)%N
    ∧ rowid_to_pkey (d st') !! row_id
      = Some (generatePrimaryKey ident (getTypeFromRuleName rule_type))
    ∧ rule_list (d st') !! generatePrimaryKey ident (getTypeFromRuleName rule_type)
      = Some rule
    ∧ identifier rule = ident ∧ type rule = getTypeFromRuleName rule_type.
Proof.
  intros Hid Hstate Hgood Hrun Hdb Hold Hroom. unfold insert.
  rewrite GetRowData_accepted_row by done. simpl.
  destruct (payload_row_lookups ident state_text rule_type msg) as (-> & -> & -> & ->).
  simpl. rewrite Hgood. simpl. unfold ExecuteProcess.
  match goal with |- context [popen host ?cmd] => destruct (Hrun cmd) as [output ->] end.
  simpl.
  destruct (updateRules iteration db st) as [[status st1]|] eqn:Hup;
    [|unfold updateRules in Hup; rewrite Hdb in Hup; discriminate].
  assert (status = OK) as ->.
  { unfold updateRules in Hup. rewrite Hdb in Hup. simpl in Hup. by injection Hup as <- _. }
  destruct (updateRules_issued iteration iteration_perm db st st1 OK) as [Hold1 Hroom1];
    [intros collected rules' Hdb'; rewrite Hdb in Hdb'; by injection Hdb' as _ <-|done|done|].
  simpl.
  set (pk := generatePrimaryKey ident (getTypeFromRuleName rule_type)).
  assert (∀ rule, rule_list (d st1) !! pk = Some rule →
            identifier rule = ident ∧ type rule = getTypeFromRuleName rule_type) as Hkey.
  { intros rule Hrule.
    rewrite (refresh_rule_list iteration db rules st st1 OK pk Hdb Hup) in Hrule.
    apply first_rule_Some in Hrule as [_ Hpk]. by apply primary_key_inj in Hpk. }
  destruct (find _ _) as [[rowid pk']|] eqn:Hfind.
  - apply find_some in Hfind as [Hin Hmatch].
    apply andb_prop in Hmatch as [Hpk Hrule]. apply bool_decide_eq_true in Hpk.
    simpl in Hpk. subst pk'.
    apply list_elem_of_In in Hin. rewrite iteration_perm in Hin.
    apply elem_of_map_to_list in Hin.
    fold pk in Hrule. destruct (rule_list (d st1) !! pk) as [rule|] eqn:Hlist; [|done].
    eexists rowid, st1, _, rule. split; [reflexivity|].
    split; [apply Hold1 in Hin; lia|]. split; [done|]. split; [done|]. by apply Hkey.
  - rewrite N.mod_small by done.
    destruct (rule_list (d st1) !! pk) as [rule|] eqn:Hlist.
    + eexists (generator st1), _, _, rule. split; [reflexivity|]. simpl.
      split; [lia|]. split; [|split; [|by apply Hkey]].
      * apply unordered_insert_fresh.
        destruct (rowid_to_pkey (d st1) !! generator st1) eqn:Hm; [|done].
        apply Hold1 in Hm. lia.
      * unfold unordered_insert, generatePrimaryKey_rule. simpl. fold pk.
        by rewrite Hlist.
    + eexists (generator st1), _, _,
        {| type := getTypeFromRuleName rule_type;
           state := getStateFromRuleName state_text;
           identifier := ident; custom_message := default EmptyString msg |}.
      split; [reflexivity|]. simpl.
      split; [lia|]. split; [|split; [|done]].
      * apply unordered_insert_fresh.
        destruct (rowid_to_pkey (d st1) !! generator st1) eqn:Hm; [|done].
        apply Hold1 in Hm. lia.
      * unfold unordered_insert, generatePrimaryKey_rule. simpl. fold pk.
        rewrite Hlist. by rewrite lookup_insert_eq.
Qed.

(** X16.  When the payload is valid, [santactl] is there and succeeds and
    the refresh succeeds, [insert] runs one command and answers success
    with a row identifier that, in the new state, stands for the primary
    key of the inserted rule, under which the rule table holds a rule
    (found in the snapshot, or made up when the snapshot lags). *)
Theorem insert_id_resolves (host : Host) (db : RulesDatabase) (st : RulesState)
    (rules : RuleEntries) (ident state_text rule_type : string) (msg : option string) :
  identifier_error rule_type ident = None →
  state_recognized state_text = true →
  santactl_good host = true →
  (∀ cmd, ∃ output, popen host cmd = Some (output, 0%Z)) →
  collectSantaRules db = Some (true, rules) →
  rowids_below (rowid_to_pkey (d st)) (generator st) →
  (generator st + N.of_nat (List.length rules) + 1 < RowID_modulus)%N →
  ∃ row_id st' args,
    insert iteration host db (payload ident state_text rule_type msg) st
    = Some (inserted row_id, st', [Exec kSantactlPath args])
    ∧ rowid_to_pkey (d st') !! row_id
      = Some (generatePrimaryKey ident (getTypeFromRuleName rule_type))
    ∧ is_Some (rule_list (d st') !! generatePrimaryKey ident (getTypeFromRuleName rule_type)).
Proof.
  intros Hid Hstate Hgood Hrun Hdb Hold Hroom.
  destruct (insert_row_resolves host db st rules ident state_text rule_type msg)
    as (row_id & st' & args & rule & Hins & _ & Hrow & Hrule & _); try done.
  exists row_id, st', args. by rewrite Hrule.
Qed.


End InsertedRow.

Lemma insert_id_resolves_witness :
  ∃ row_id st' args,
    insert map_to_list obliging_host empty_db (payload "abc" "allow" "certificate" None)
      (no_rule_state 0)
    = Some (inserted row_id, st', [Exec kSantactlPath args])
    ∧ rowid_to_pkey (d st') !! row_id
      = Some (generatePrimaryKey "abc" (getTypeFromRuleName "certificate"))
    ∧ is_Some (rule_list (d st') !! generatePrimaryKey "abc" (getTypeFromRuleName "certificate")).
Proof.
  apply (insert_id_resolves map_to_list (λ m, reflexivity _) obliging_host empty_db
           (no_rule_state 0) [] "abc" "allow" "certificate" None).
  - reflexivity.
  - reflexivity.
  - reflexivity.
  - intros cmd. by exists EmptyString.
  - reflexivity.
  - intros r pk Hr. simpl in Hr. by rewrite lookup_empty in Hr.
  - reflexivity.
Defined.


(** ** Reading the log again *)

Lemma events_of_selected (decision : SantaDecisionType) (files : list (list string)) :
  map entry_of_line (concat (map (selected_lines decision) files))
  = concat (map (events decision) files).
Proof.
  induction files as [|lines files IH]; [done|].
  simpl. rewrite map_app, IH. reflexivity.
Qed.

Lemma scrapeSantaLog_cases (fs : LogFiles) (decision : SantaDecisionType)
    (cache : ArchiveCache) :
  scrapeSantaLog fs decision cache
  = if newArchiveFileExists fs cache then
      (true, (live_events fs decision ++ archive_events fs decision)%list,
       {| archived_lines :=
            concat (map (selected_lines decision) (decoded_archives (archives fs)));
          next_oldest_archive := scan_stop fs |})
    else
      (true, (live_events fs decision ++ map entry_of_line (archived_lines cache))%list,
       cache).
Proof.
  destruct (newArchiveFileExists fs cache) eqn:Hnew.
  - unfold scrapeSantaLog. rewrite Hnew. cbn [negb].
    rewrite rescan_spec by (simpl; lia).
    rewrite drop_0. simpl.
    unfold scrapeCurrentLog, live_events, archive_events, scan_stop.
    destruct (live_log fs); simpl; [rewrite scrapeStream_spec|]; reflexivity.
  - by apply scrapeSantaLog_replay.
Qed.

Lemma archive_file_at_stop (files : list GzFile) (lines : list string) :
  nth (List.length (decoded_archives files)) files GzMissing ≠ GzText lines.
Proof.
  induction files as [|file files IH]; [done|].
  by destruct file.
Qed.

(** X18.  With the files unchanged, asking a decisions table twice for the
    same class gives the same rows twice, and the second read leaves the
    cache as the first left it, whatever the cache was before. *)
Theorem decisionTablesGenerate_again (fs : LogFiles) (decision : SantaDecisionType)
    (cache : ArchiveCache) :
  let '(rows, cache1) := decisionTablesGenerate fs decision cache in
  decisionTablesGenerate fs decision cache1 = (rows, cache1).
Proof.
  unfold decisionTablesGenerate.
  rewrite (scrapeSantaLog_cases fs decision cache).
  destruct (newArchiveFileExists fs cache) eqn:Hnew; cbv beta iota; cbn [negb].
  - rewrite scrapeSantaLog_cases.
    clear Hnew.
    destruct (newArchiveFileExists fs _); cbn [negb]; [done|].
    cbn [archived_lines]. by rewrite events_of_selected.
  - by rewrite scrapeSantaLog_cases, Hnew.
Qed.

(** X19.  After a scan of the archives, the next read scans again exactly
    when the scan stopped at an archive that is there but cannot be
    decoded: such an archive keeps the cache from ever being used. *)
Theorem damaged_archive_defeats_cache (fs : LogFiles) (decision : SantaDecisionType)
    (cache cache1 : ArchiveCache) (entries : LogEntries) :
  newArchiveFileExists fs cache = true →
  scrapeSantaLog fs decision cache = (true, entries, cache1) →
  (newArchiveFileExists fs cache1 = true ↔ archive_file fs (scan_stop fs) = GzDamaged).
Proof.
  intros Hnew. rewrite scrapeSantaLog_cases, Hnew. intros [= _ <-].
  unfold newArchiveFileExists, archive_file, scan_stop. simpl.
  pose proof (archive_file_at_stop (archives fs)) as Hstop.
  destruct (nth _ (archives fs) GzMissing) as [| |lines]; [by split|by split|].
  by destruct (Hstop lines).
Qed.

(** X20.  The cache remembers the class of the scan that filled it: when no
    new archive has appeared, a read for any class returns the live events
    of that class followed by the archive events of the class the last scan
    was made for. *)
Theorem replay_of_other_class (fs : LogFiles) (scanned asked : SantaDecisionType)
    (cache cache1 : ArchiveCache) (entries : LogEntries) :
  newArchiveFileExists fs cache = true →
  scrapeSantaLog fs scanned cache = (true, entries, cache1) →
  newArchiveFileExists fs cache1 = false →
  scrapeSantaLog fs asked cache1
  = (true, (live_events fs asked ++ archive_events fs scanned)%list, cache1).
Proof.
  intros Hnew. rewrite scrapeSantaLog_cases, Hnew. intros [= _ <-] Hgap.
  rewrite scrapeSantaLog_cases, Hgap. simpl. by rewrite events_of_selected.
Qed.

Lemma damaged_archive_defeats_cache_witness :
  archive_file damaged_logs (scan_stop damaged_logs) = GzDamaged
  ∧ (newArchiveFileExists damaged_logs
       {| archived_lines := [allow_line]; next_oldest_archive := 1 |} = true
     ↔ archive_file damaged_logs (scan_stop damaged_logs) = GzDamaged).
Proof.
  split; [reflexivity|].
  apply (damaged_archive_defeats_cache damaged_logs kAllowed fresh_cache
           {| archived_lines := [allow_line]; next_oldest_archive := 1 |} [allow_entry]).
  - reflexivity.
  - vm_compute. reflexivity.
Defined.

Lemma replay_of_other_class_witness :
  scrapeSantaLog rotated_logs kDenied
    {| archived_lines := [allow_line]; next_oldest_archive := 1 |}
  = (true, (live_events rotated_logs kDenied ++ archive_events rotated_logs kAllowed)%list,
     {| archived_lines := [allow_line]; next_oldest_archive := 1 |}).
Proof.
  apply (replay_of_other_class rotated_logs kAllowed kDenied fresh_cache
           {| archived_lines := [allow_line]; next_oldest_archive := 1 |} [allow_entry]).
  - reflexivity.
  - vm_compute. reflexivity.
  - reflexivity.
Defined.

(** ** What a mutation leaves behind *)

(** X21.  A mutation that does not answer success leaves the tables and
    the generator as they were, also when the command has already run: an
    [insert] that answers anything but a row identifier, and a [delete_]
    that answers anything but success, return the state they were given. *)
Theorem failed_mutation_keeps_state (iteration : gmap N string → list (N * string))
    (host : Host) (db : RulesDatabase) (st st' : RulesState) (answer : QueryData)
    (effects : list Effect) :
  (∀ document,
     insert iteration host db document st = Some (answer, st', effects) →
     (∃ row_id, answer = inserted row_id) ∨ st' = st)
  ∧ (∀ id,
       delete_ iteration host db id st = Some (answer, st', effects) →
       answer = [ {[ "status" := "success" ]} ] ∨ st' = st).
Proof.
  assert (∀ status st1, updateRules iteration db st = Some (status, st1) →
            ok status = false → st1 = st) as Hfail.
  { intros status st1. unfold updateRules.
    destruct (collectSantaRules db) as [[[|] rules]|]; simpl; [|by intros [= _ <-]|done].
    by intros [= <- _]. }
  split.
  - intros document. unfold insert.
    destruct (GetRowData document) as [[status row]|]; [|discriminate]. simpl.
    destruct (ok status); simpl; [|intros [= _ <- _]; by right].
    destruct (row !! "identifier") as [ident|]; [|discriminate]. simpl.
    destruct (row !! "custom_message") as [msg|]; [|discriminate]. simpl.
    destruct (santactl_good host); simpl; [|intros [= _ <- _]; by right].
    destruct (ExecuteProcess host kSantactlPath _) as [executed output].
    destruct executed; simpl; [|intros [= _ <- _]; by right].
    destruct (exit_code output =? 0)%Z; simpl; [|intros [= _ <- _]; by right].
    destruct (updateRules iteration db st) as [[status1 st1]|] eqn:Hup; [|discriminate].
    simpl. destruct (ok status1) eqn:Hok; simpl.
    + destruct (find _ _) as [[rowid pk]|]; intros [= <- _ _]; left; by eexists.
    + intros [= _ <- _]. right. by eapply Hfail.
  - intros id. unfold delete_.
    destruct (CStr.strtoull id) as [temp rest].
    destruct (bool_decide (rest = EmptyString)); simpl; [|intros [= _ <- _]; by right].
    destruct (rowid_to_pkey (d st) !! _) as [pkey|]; [|intros [= _ <- _]; by right].
    destruct (rule_list (d st) !! pkey) as [rule|]; [|intros [= _ <- _]; by right].
    destruct (remove_type_args rule) as [type_args|]; [|intros [= _ <- _]; by right].
    destruct (ExecuteProcess host kSantactlPath _) as [executed output].
    destruct (negb executed || negb (exit_code output =? 0)%Z);
      [intros [= _ <- _]; by right|].
    destruct (updateRules iteration db st) as [[status1 st1]|] eqn:Hup; [|discriminate].
    simpl. destruct (ok status1) eqn:Hok; simpl.
    + intros [= <- _ _]. by left.
    + intros [= _ <- _]. right. by eapply Hfail.
Qed.


(** ** Fields of a log line *)

(** A field that is set stays as it is: [emplace] keeps the first value. *)
Lemma extract_pairs_keeps (rounds : nat) (line : string) (key_pos : option nat)
    (values : gmap string string) (k v : string) :
  values !! k = Some v → extract_pairs rounds line key_pos values !! k = Some v.
Proof.
  revert key_pos values.
  induction rounds as [|rounds IH]; intros key_pos values Hk; [done|].
  destruct key_pos as [key_pos|]; [|done]. cbn [extract_pairs].
  destruct (CStr.find "=" key_pos line) as [key_end|]; [|done].
  destruct (CStr.find_first_not_of "=" key_end line) as [val_pos|]; [|done].
  apply IH. by apply (lookup_weaken _ _ _ _ Hk), unordered_insert_subseteq.
Qed.

Lemma size_t_sub_small (a b : N) :
  (b ≤ a < 2 ^ 64)%N → CStr.size_t_sub a b = (a - b)%N.
Proof.
  intros Hab. unfold CStr.size_t_sub.
  replace (a + 2 ^ 64 - b)%N with ((a - b) + 1 * 2 ^ 64)%N by lia.
  rewrite N.Div0.mod_add. apply N.mod_small. lia.
Qed.

Lemma size_t_sub_wrap (a b : N) :
  (a < b < 2 ^ 64)%N → CStr.size_t_sub a b = (a + 2 ^ 64 - b)%N.
Proof. intros Hab. unfold CStr.size_t_sub. apply N.mod_small. lia. Qed.

(** X23.  The timestamp of a line is the text between the first opening
    and the first closing bracket; when the closing bracket comes first it
    is the whole rest of the line after the opening bracket.  A
    [timestamp=] pair in the body never replaces it. *)
Theorem extractValues_timestamp (line : string) (opening closing : nat) :
  (N.of_nat (String.length line) < 2 ^ 64)%N →
  CStr.find "[" 0 line = Some opening →
  CStr.find "]" 0 line = Some closing →
  field (extractValues line) "timestamp"
  = if (opening <? closing)%nat
    then String.substring (S opening) (closing - opening - 1) line
    else String.substring (S opening) (String.length line - S opening) line.
Proof.
  intros Hlen Hopen Hclose.
  assert (opening ≠ closing) as Hne.
  { intros ->. apply index_correct1 in Hopen, Hclose. simpl in *. congruence. }
  pose proof (find_bounds _ _ _ _ Hopen) as [_ Ho].
  pose proof (find_bounds _ _ _ _ Hclose) as [_ Hc]. simpl in Ho, Hc.
  assert (extract_timestamp line ∅ !! "timestamp"
          = Some (if (opening <? closing)%nat
                  then String.substring (S opening) (closing - opening - 1) line
                  else String.substring (S opening) (String.length line - S opening) line))
    as Hts.
  { unfold extract_timestamp. rewrite Hopen, Hclose.
    rewrite bool_decide_eq_true_2 by done. rewrite lookup_insert_eq. f_equal.
    unfold CStr.substr. rewrite Nat.add_1_r.
    destruct (Nat.ltb_spec opening closing) as [Hlt|Hge]; f_equal.
    - rewrite (size_t_sub_small (N.of_nat closing)) by lia.
      rewrite size_t_sub_small by lia. lia.
    - rewrite (size_t_sub_wrap (N.of_nat closing)) by lia.
      rewrite size_t_sub_small by lia. lia. }
  unfold field, extractValues.
  destruct (CStr.find kLogEntryPreface 0 line) as [key_pos|].
  - by rewrite (extract_pairs_keeps _ _ _ _ _ _ Hts).
  - by rewrite Hts.
Qed.

Lemma extractValues_timestamp_witness :
  field (extractValues allow_line) "timestamp"
  = if (0 <? 25)%nat
    then String.substring 1 (25 - 0 - 1) allow_line
    else String.substring 1 (String.length allow_line - 1) allow_line.
Proof. apply (extractValues_timestamp allow_line 0 25); reflexivity. Defined.

Lemma append_length (a b : string) :
  String.length (a ++ b) = (String.length a + String.length b)%nat.
Proof.
  induction a as [|c a IH]; [done|].
  change (String c a ++ b) with (String c (a ++ b)). simpl. by rewrite IH.
Qed.

Lemma append_assoc (a b c : string) : (a ++ b) ++ c = a ++ (b ++ c).
Proof.
  induction a as [|x a IH]; [done|].
  change (String x ((a ++ b) ++ c) = String x (a ++ (b ++ c))). by rewrite IH.
Qed.

Lemma chars_append (a b : string) :
  CStr.chars (a ++ b) = (CStr.chars a ++ CStr.chars b)%list.
Proof.
  unfold CStr.chars. induction a as [|c a IH]; [done|].
  change (String c a ++ b) with (String c (a ++ b)). simpl. by rewrite IH.
Qed.

Lemma chars_length (a : string) : List.length (CStr.chars a) = String.length a.
Proof. unfold CStr.chars. induction a as [|c a IH]; simpl; [done|by rewrite IH]. Qed.

Lemma find_after (needle a b : string) (pos : nat) :
  CStr.find needle (String.length a + pos) (a ++ b)
  = (λ m, (String.length a + m)%nat) <$> CStr.find needle pos b.
Proof.
  unfold CStr.find. induction a as [|c a IH].
  - change (EmptyString ++ b) with b. simpl. destruct (index pos needle b); reflexivity.
  - change (String c a ++ b) with (String c (a ++ b)).
    cbn [String.length Nat.add index].
    rewrite IH. destruct (index pos needle b); reflexivity.
Qed.

Lemma find_char_first (c : ascii) (k rest : string) :
  c ∉ CStr.chars k →
  CStr.find (String c EmptyString) 0 (k ++ String c rest) = Some (String.length k).
Proof.
  unfold CStr.find, CStr.chars.
  induction k as [|x k IH]; intros Hk.
  - change (EmptyString ++ String c rest) with (String c rest).
    cbn [index String.prefix String.length].
    destruct (ascii_dec c c); [|done]. by rewrite prefix_empty.
  - change (String x k ++ String c rest) with (String x (k ++ String c rest)).
    cbn [index String.prefix String.length list_ascii_of_string] in *.
    destruct (ascii_dec c x) as [->|Hne]; [destruct Hk; by left|].
    rewrite IH; [done|]. intros Hin. apply Hk. by right.
Qed.

Lemma find_char_absent (c : ascii) (s : string) :
  c ∉ CStr.chars s → CStr.find (String c EmptyString) 0 s = None.
Proof.
  unfold CStr.find, CStr.chars.
  induction s as [|x s IH]; intros Hs;
    cbn [index String.prefix list_ascii_of_string] in *; [done|].
  destruct (ascii_dec c x) as [->|Hne]; [destruct Hs; by left|].
  rewrite IH; [done|]. intros Hin. apply Hs. by right.
Qed.

Lemma substring_after (a b : string) (n : nat) :
  String.substring (String.length a) n (a ++ b) = String.substring 0 n b.
Proof.
  induction a as [|c a IH]; [done|].
  change (String c a ++ b) with (String c (a ++ b)). exact IH.
Qed.

Lemma substring_head (m r : string) :
  String.substring 0 (String.length m) (m ++ r) = m.
Proof.
  induction m as [|c m IH]; [by destruct r|].
  change (String c m ++ r) with (String c (m ++ r)).
  cbn [String.length substring]. by rewrite IH.
Qed.

(** [substr] cuts the middle part out of a text when asked for at least its
    length and nothing follows, or for exactly its length. *)
Lemma substr_middle (a m r : string) (count : N) :
  (count = N.of_nat (String.length m)
   ∨ (r = EmptyString ∧ (N.of_nat (String.length m) ≤ count)%N)) →
  CStr.substr (a ++ m ++ r) (String.length a) count = m.
Proof.
  intros Hcount. unfold CStr.substr.
  rewrite !append_length.
  assert (N.to_nat (N.min count (N.of_nat (String.length a + (String.length m + String.length r))
                                 - N.of_nat (String.length a)))
          = String.length m) as ->.
  { destruct Hcount as [->|[-> Hle]]; simpl; lia. }
  by rewrite substring_after, substring_head.
Qed.

Lemma first_not_of_after (set : string) (a b : string) :
  CStr.find_first_not_of set (String.length a) (a ++ b)
  = CStr.first_not_of_from (CStr.chars set) (String.length a) (CStr.chars b).
Proof.
  unfold CStr.find_first_not_of.
  by rewrite chars_append, <- chars_length, drop_app_length.
Qed.

(** One round of the scan over a pair that is followed by a pipe. *)
Lemma extract_pairs_step (rounds : nat) (a k v rest : string)
    (values : gmap string string) :
  let line := a ++ k ++ String "=" (v ++ String "|" rest) in
  (N.of_nat (String.length line) < 2 ^ 64)%N →
  pair_ok (k, v) →
  extract_pairs (S rounds) line (Some (String.length a)) values
  = extract_pairs rounds line
      (Some (String.length (a ++ k ++ String "=" (v ++ String "|" EmptyString))))
      (unordered_insert k v values).
Proof.
  intros line Hlen (Hk & Hv & Hhead). simpl in Hk, Hv, Hhead.
  assert (String.length line
          = (String.length a + String.length k + 1 + String.length v + 1
             + String.length rest)%nat) as Hsize.
  { unfold line. rewrite !append_length. simpl. rewrite append_length. simpl. lia. }
  cbn [extract_pairs].
  (* the key ends at the first [=] *)
  assert (CStr.find "=" (String.length a) line = Some (String.length a + String.length k)%nat)
    as ->.
  { unfold line. rewrite <- (Nat.add_0_r (String.length a)) at 1.
    by rewrite find_after, find_char_first. }
  (* the value starts right after it *)
  assert (CStr.find_first_not_of "=" (String.length a + String.length k) line
          = Some (S (String.length a + String.length k))) as ->.
  { unfold line. rewrite <- append_assoc, <- append_length, first_not_of_after.
    change (CStr.chars (String "=" (v ++ String "|" rest)))
      with ("="%char :: CStr.chars (v ++ String "|" rest)).
    cbn [CStr.first_not_of_from]. rewrite bool_decide_eq_true_2 by (by left).
    destruct v as [|c v]; [done|].
    change (CStr.chars (String c v ++ String "|" rest))
      with (c :: CStr.chars (v ++ String "|" rest)).
    cbn [CStr.first_not_of_from]. rewrite bool_decide_eq_false_2; [done|].
    intros [->|Hin]%elem_of_cons; [by eapply Hhead|inversion Hin]. }
  (* and ends at the first pipe *)
  assert (CStr.find "|" (S (String.length a + String.length k)) line
          = Some (S (String.length a + String.length k) + String.length v)%nat) as ->.
  { unfold line.
    replace (a ++ k ++ String "=" (v ++ String "|" rest))
      with ((a ++ k ++ String "=" EmptyString) ++ v ++ String "|" rest)
      by (rewrite !append_assoc; reflexivity).
    replace (S (String.length a + String.length k))
      with (String.length (a ++ k ++ String "=" EmptyString) + 0)%nat
      by (rewrite !append_length; simpl; lia).
    rewrite find_after, find_char_first by done. simpl. f_equal. lia. }
  cbn [fmap option_fmap option_map CStr.pos_or_npos].
  f_equal.
  - f_equal. rewrite !append_length. simpl. rewrite append_length. simpl. lia.
  - f_equal.
    + unfold line. apply substr_middle. left. lia.
    + unfold line.
      replace (a ++ k ++ String "=" (v ++ String "|" rest))
        with ((a ++ k ++ String "=" EmptyString) ++ v ++ String "|" rest)
        by (rewrite !append_assoc; reflexivity).
      replace (S (String.length a + String.length k))
        with (String.length (a ++ k ++ String "=" EmptyString))
        by (rewrite !append_length; simpl; lia).
      apply substr_middle. left.
      rewrite size_t_sub_small; rewrite !append_length; simpl; lia.
Qed.

Lemma append_empty (s : string) : s ++ EmptyString = s.
Proof.
  induction s as [|c s IH]; [done|].
  change (String c s ++ EmptyString) with (String c (s ++ EmptyString)). by rewrite IH.
Qed.

(** The round over the last pair, which no pipe follows. *)
Lemma extract_pairs_last (rounds : nat) (a k v : string) (values : gmap string string) :
  let line := a ++ k ++ String "=" v in
  (N.of_nat (String.length line) < 2 ^ 64)%N →
  pair_ok (k, v) → v ≠ EmptyString →
  extract_pairs (S rounds) line (Some (String.length a)) values
  = unordered_insert k v values.
Proof.
  intros line Hlen (Hk & Hv & Hhead) Hne. simpl in Hk, Hv, Hhead.
  assert (String.length line = (String.length a + String.length k + 1 + String.length v)%nat)
    as Hsize.
  { unfold line. rewrite !append_length. simpl. lia. }
  cbn [extract_pairs].
  assert (CStr.find "=" (String.length a) line = Some (String.length a + String.length k)%nat)
    as ->.
  { unfold line. rewrite <- (Nat.add_0_r (String.length a)) at 1.
    by rewrite find_after, find_char_first. }
  assert (CStr.find_first_not_of "=" (String.length a + String.length k) line
          = Some (S (String.length a + String.length k))) as ->.
  { unfold line. rewrite <- append_assoc, <- append_length, first_not_of_after.
    change (CStr.chars (String "=" v)) with ("="%char :: CStr.chars v).
    cbn [CStr.first_not_of_from]. rewrite bool_decide_eq_true_2 by (by left).
    destruct v as [|c v]; [done|].
    change (CStr.chars (String c v)) with (c :: CStr.chars v).
    cbn [CStr.first_not_of_from]. rewrite bool_decide_eq_false_2; [done|].
    intros [->|Hin]%elem_of_cons; [by eapply Hhead|inversion Hin]. }
  assert (line = (a ++ k ++ String "=" EmptyString) ++ v ++ EmptyString) as Hline.
  { unfold line. by rewrite !append_assoc, append_empty. }
  assert (S (String.length a + String.length k)
          = String.length (a ++ k ++ String "=" EmptyString)) as Hpos.
  { rewrite !append_length. simpl. lia. }
  assert (CStr.find "|" (S (String.length a + String.length k)) line = None) as ->.
  { rewrite Hline, Hpos, <- (Nat.add_0_r (String.length _)), find_after.
    by rewrite append_empty, find_char_absent. }
  cbn [fmap option_fmap option_map CStr.pos_or_npos].
  destruct rounds; cbn [extract_pairs]; f_equal.
  all: try (unfold line; apply substr_middle; left; lia).
  all: rewrite Hline, Hpos; apply substr_middle; right; split; [done|];
    rewrite size_t_sub_small; unfold CStr.npos; rewrite <- Hpos; lia.
Qed.

Lemma render_pairs_length (pairs : list (string * string)) :
  (List.length pairs ≤ String.length (render_pairs pairs))%nat.
Proof.
  induction pairs as [|[k v] [|p rest] IH]; cbn [render_pairs List.length] in *.
  - lia.
  - rewrite append_length. simpl. lia.
  - rewrite append_length. simpl. rewrite append_length. simpl. lia.
Qed.

Lemma line_regroup (a k v rest : string) :
  a ++ k ++ String "=" (v ++ String "|" rest)
  = (a ++ k ++ String "=" (v ++ String "|" EmptyString)) ++ rest.
Proof.
  rewrite (append_assoc a), (append_assoc k).
  change (String "=" (v ++ String "|" EmptyString) ++ rest)
    with (String "=" ((v ++ String "|" EmptyString) ++ rest)).
  by rewrite (append_assoc v).
Qed.

(** The scan reads the pairs back in order. *)
Lemma extract_pairs_render (pairs : list (string * string)) (a : string)
    (values : gmap string string) (rounds : nat) :
  (List.length pairs ≤ rounds)%nat →
  (N.of_nat (String.length (a ++ render_pairs pairs)) < 2 ^ 64)%N →
  Forall pair_ok pairs → last_value_present pairs →
  extract_pairs rounds (a ++ render_pairs pairs) (Some (String.length a)) values
  = fields_of pairs values.
Proof.
  revert a values rounds.
  induction pairs as [|[k v] rest IH]; intros a values rounds Hrounds Hlen Hok Hlast.
  - destruct rounds; [done|]. cbn [extract_pairs render_pairs].
    rewrite <- (Nat.add_0_r (String.length a)), find_after. done.
  - destruct rounds as [|rounds]; [simpl in Hrounds; lia|].
    apply Forall_cons in Hok as [Hkv Hok].
    destruct rest as [|p rest].
    + cbn [render_pairs]. apply extract_pairs_last; [done|done|].
      by apply (Hlast (k, v)).
    + change (render_pairs ((k, v) :: p :: rest))
        with (k ++ String "=" (v ++ String "|" (render_pairs (p :: rest)))) in *.
      rewrite (extract_pairs_step rounds a k v (render_pairs (p :: rest))) by done.
      rewrite line_regroup in Hlen |- *.
      apply IH; [simpl in *; lia|done|done|].
      intros q Hq. by apply Hlast.
Qed.

(** X24.  A line whose body, after the preface, is a sequence of
    [key=value] pairs with pipes between them is read back pair by pair:
    the fields are the pairs in order on top of the timestamp, the first
    value of a repeated key winning. *)
Theorem extractValues_pairs (pre : string) (pairs : list (string * string)) :
  let line := pre ++ kLogEntryPreface ++ render_pairs pairs in
  (N.of_nat (String.length line) < 2 ^ 64)%N →
  CStr.find kLogEntryPreface 0 line = Some (String.length pre) →
  Forall pair_ok pairs → last_value_present pairs →
  extractValues line = fields_of pairs (extract_timestamp line ∅).
Proof.
  intros line Hlen Hfind Hok Hlast. subst line.
  rewrite <- append_assoc in *. unfold extractValues. rewrite Hfind.
  rewrite <- append_length.
  apply extract_pairs_render; [|done|done|done].
  pose proof (render_pairs_length pairs). rewrite append_length. lia.
Qed.

Lemma extractValues_pairs_witness :
  let pre := "[2024-01-01T10:00:00.000Z] I " in
  let pairs := [("action", "EXEC"); ("decision", "ALLOW"); ("reason", "CERT");
                ("sha256", "aa11"); ("path", "/bin/ls")] in
  pre ++ kLogEntryPreface ++ render_pairs pairs = allow_line ∧
  extractValues allow_line = fields_of pairs (extract_timestamp allow_line ∅).
Proof.
  intros pre pairs. split; [reflexivity|].
  apply (extractValues_pairs pre pairs).
  - vm_compute. reflexivity.
  - vm_compute. reflexivity.
  - repeat constructor; cbn; try (intros Hin; by repeat (apply elem_of_cons in Hin as [Hin|Hin]; [discriminate Hin|]; try by apply elem_of_nil in Hin)); try (intros r Hr; discriminate Hr).
  - intros p Hp. vm_compute in Hp. injection Hp as <-. discriminate.
Defined.

(** ** Command lines ([utils.cpp]) *)

Lemma escape_quotes_plain (arg : string) :
  dquote ∉ CStr.chars arg → escape_quotes arg = arg.
Proof.
  induction arg as [|c r IH]; [done|].
  cbn [CStr.chars escape_quotes]. intros Hnot.
  apply not_elem_of_cons in Hnot as [Hc Hr].
  rewrite bool_decide_eq_false_2 by (intros ->; done).
  by rewrite IH.
Qed.

(** X25.  An argument without a double quote reaches the command line
    unchanged; backslashes, dollar signs and backquotes are not escaped. *)
Theorem escape_quotes_quote_free (arg : string) :
  dquote ∉ CStr.chars arg → escape_quotes arg = arg.
Proof. apply escape_quotes_plain. Qed.

Lemma escape_quotes_quote_free_witness :
  escape_quotes "$(id)\" = "$(id)\".
Proof.
  apply (escape_quotes_quote_free "$(id)\").
  intros Hin. cbn in Hin.
  repeat (apply elem_of_cons in Hin as [Hin|Hin]; [discriminate Hin|]).
  by apply elem_of_nil in Hin.
Defined.

Lemma escape_quotes_guarded (arg : string) (i : nat) :
  String.get i (escape_quotes arg) = Some dquote →
  ∃ j, i = S j ∧ String.get j (escape_quotes arg) = Some backslash.
Proof.
  revert i. induction arg as [|c r IH]; intros i; [done|].
  cbn [escape_quotes]. case_bool_decide as Hc.
  - destruct i as [|[|i]]; cbn [String.get]; [done| |].
    + intros _. by exists 0%nat.
    + intros Hi. destruct (IH _ Hi) as (j & -> & Hj). by exists (S (S j)).
  - destruct i as [|i]; cbn [String.get].
    + intros [= ->]. done.
    + intros Hi. destruct (IH _ Hi) as (j & -> & Hj). by exists (S j).
Qed.

(** X26.  In an escaped argument every double quote stands right after a
    backslash; in particular the escaped argument never starts with a
    double quote. *)
Theorem escape_quotes_no_bare_quote (arg : string) (i : nat) :
  String.get i (escape_quotes arg) = Some dquote →
  ∃ j, i = S j ∧ String.get j (escape_quotes arg) = Some backslash.
Proof. apply escape_quotes_guarded. Qed.

Lemma escape_quotes_no_bare_quote_witness :
  ∃ j, 2%nat = S j ∧
       String.get j (escape_quotes (String "a" (String dquote "b"))) = Some backslash.
Proof.
  apply (escape_quotes_no_bare_quote (String "a" (String dquote "b")) 2).
  reflexivity.
Defined.
